(** * Text/HTML conversion of the idea-board editor widget

    Shallow embedding of [src/scripts/services/util.js]: [htmlToText],
    [processLineBreaks], [removeEmptyParagraphs], [cleanupText] and
    [textToCardHTMLs], together with the parts of the JavaScript and DOM
    platform these functions call ([String.prototype.trim], [split] and
    [replace] with a regular expression, [innerHTML], [querySelectorAll],
    [textContent]). *)

From Stdlib Require Import Bool String Ascii NArith Arith Lia List.
Set Warnings "-register-all".
Import ListNotations.
Local Open Scope list_scope.

(** ** JavaScript strings

    A JavaScript string is a sequence of UTF-16 code units.  None of the
    regular expressions of the program carries the [u] flag, so every
    operation below works code unit by code unit. *)

Module Js.

Abbreviation char := N (only parsing).
Abbreviation jsstring := (list N) (only parsing).

(** ASCII literal of the development as a JavaScript string. *)
Definition str (s : string) : jsstring :=
  map N_of_ascii (list_ascii_of_string s).

Definition NUL : char := 0%N.
Definition LF : char := 10%N.
Definition CR : char := 13%N.
Definition SPACE : char := 32%N.
Definition QUOT : char := 34%N.
Definition AMP : char := 38%N.
Definition LT : char := 60%N.
Definition GT : char := 62%N.
Definition NBSP : char := 160%N.

Definition isNl (c : char) : bool := N.eqb c LF.
Definition isNbsp (c : char) : bool := N.eqb c NBSP.

(** WhiteSpace and LineTerminator of ECMAScript: the characters removed by
    [trim] and matched by the class [\s]. *)
Definition isSpace (c : char) : bool :=
  N.eqb c 9 || N.eqb c 10 || N.eqb c 11 || N.eqb c 12 || N.eqb c 13
  || N.eqb c 32 || N.eqb c 160 || N.eqb c 5760
  || (N.leb 8192 c && N.leb c 8202)
  || N.eqb c 8232 || N.eqb c 8233 || N.eqb c 8239 || N.eqb c 8287
  || N.eqb c 12288 || N.eqb c 65279.

Fixpoint dropWhile (p : char -> bool) (s : jsstring) : jsstring :=
  match s with
  | [] => []
  | c :: s' => if p c then dropWhile p s' else s
  end.

Definition trimStart (s : jsstring) : jsstring := dropWhile isSpace s.
Definition trimEnd (s : jsstring) : jsstring := rev (dropWhile isSpace (rev s)).

(** [s.trim()] *)
Definition trim (s : jsstring) : jsstring := trimEnd (trimStart s).

(** [lines.join(sep)] *)
Fixpoint join (sep : jsstring) (l : list jsstring) : jsstring :=
  match l with
  | [] => []
  | [x] => x
  | x :: l' => x ++ sep ++ join sep l'
  end.

(** *** Regular expressions

    The four patterns of the program, [/\u00A0/], [/\n{2,}/], [/\n\s*\n/] and
    [/\n/], are sequences of single-character classes, some of them under a
    greedy star.  [matchHere r s] is the backtracking matcher of ECMAScript
    anchored at the start of [s]: it returns the number of code units of the
    match that the engine finds first (a starred class first tries to take
    one more character, and gives characters back when the rest of the
    pattern fails). *)

Inductive atom :=
| One (p : char -> bool)
| Many (p : char -> bool).

Definition regex := list atom.

Fixpoint matchHere (r : regex) : jsstring -> option nat :=
  match r with
  | [] => fun _ => Some 0
  | One p :: r' => fun s =>
      match s with
      | c :: s' => if p c then option_map S (matchHere r' s') else None
      | [] => None
      end
  | Many p :: r' =>
      fix star (s : jsstring) : option nat :=
        match s with
        | c :: s' =>
            if p c then
              match star s' with
              | Some k => Some (S k)
              | None => matchHere r' s
              end
            else matchHere r' s
        | [] => matchHere r' []
        end
  end.

(** [s.split(r)].  [skip] counts the code units of the current match that
    are still to be passed over, [acc] holds the piece being collected, in
    reverse.  No pattern of the program matches the empty string; a match of
    length zero is treated as no match. *)
Fixpoint splitGo (r : regex) (skip : nat) (acc : jsstring) (s : jsstring)
  : list jsstring :=
  match s with
  | [] => [rev acc]
  | c :: s' =>
      match skip with
      | S n => splitGo r n acc s'
      | O =>
          match matchHere r s with
          | Some (S k) => rev acc :: splitGo r k [] s'
          | _ => splitGo r 0 (c :: acc) s'
          end
      end
  end.

Definition split (r : regex) (s : jsstring) : list jsstring := splitGo r 0 [] s.

(** [s.replace(r, by)] for a pattern [r] with the [g] flag. *)
Fixpoint replaceGo (r : regex) (by_ : jsstring) (skip : nat) (s : jsstring)
  : jsstring :=
  match s with
  | [] => []
  | c :: s' =>
      match skip with
      | S n => replaceGo r by_ n s'
      | O =>
          match matchHere r s with
          | Some (S k) => by_ ++ replaceGo r by_ k s'
          | _ => c :: replaceGo r by_ 0 s'
          end
      end
  end.

Definition replaceAll (r : regex) (by_ : jsstring) (s : jsstring) : jsstring :=
  replaceGo r by_ 0 s.

(** A value a caller may pass where a string is expected. *)
Inductive value :=
| Undefined
| Null
| String (s : jsstring).

(** [!v] for such a value: [undefined], [null] and the empty string are
    falsy. *)
Definition falsy (v : value) : bool :=
  match v with
  | Undefined | Null => true
  | String s => match s with [] => true | _ => false end
  end.

End Js.

Import Js.

(** ** textToCardHTMLs *)

(** [/\n\s*\n/] *)
Definition paragraphSeparator : regex := [One isNl; Many isSpace; One isNl].

(** [/\n/] *)
Definition lineSeparator : regex := [One isNl].

Definition nonEmpty (s : jsstring) : bool :=
  match s with [] => false | _ => true end.

(** [text.split(/\n\s*\n/).map(trim).filter(length > 0)] *)
Definition sections (text : jsstring) : list jsstring :=
  filter nonEmpty (map trim (split paragraphSeparator text)).

(** [section.split(/\n/).map(trim).filter(length > 0)] *)
Definition cleanedLines (section : jsstring) : list jsstring :=
  filter nonEmpty (map trim (split lineSeparator section)).

Definition paragraphOpen : jsstring :=
  str "<p style=" ++ [QUOT] ++ str "text-align:center;" ++ [QUOT] ++ str ">".
Definition paragraphClose : jsstring := str "</p>".
Definition lineBreak : jsstring := str "<br>".

Definition cardHTML (section : jsstring) : jsstring :=
  paragraphOpen ++ join lineBreak (cleanedLines section) ++ paragraphClose.

(** What [textToCardHTMLs] returns: the string [''] on the early return, an
    array of strings otherwise. *)
Inductive cardResult :=
| EmptyString
| CardArray (fragments : list jsstring).

Definition textToCardHTMLs (text : value) : cardResult :=
  if falsy text then EmptyString
  else
    match text with
    | String s => CardArray (map cardHTML (sections s))
    | Undefined | Null => EmptyString
    end.

(** The fragments a result holds; the string [''] holds none. *)
Definition fragments (r : cardResult) : list jsstring :=
  match r with
  | EmptyString => []
  | CardArray fs => fs
  end.

(** [result[0]]: indexing the empty string or an empty array gives
    [undefined]. *)
Definition firstFragment (r : cardResult) : value :=
  match r with
  | EmptyString => Undefined
  | CardArray [] => Undefined
  | CardArray (f :: _) => String f
  end.

(** ** The DOM tree of the temporary [div]

    [htmlToText] works on a detached [div] whose children come from the
    HTML parser.  The element itself is never matched by
    [querySelectorAll], which selects descendants only, so the [div] is
    represented by the list of its children. *)

Module Dom.

Inductive node :=
| Text (data : jsstring)
| Comment (data : jsstring)
| Element (tag : jsstring) (attrs : list (jsstring * jsstring))
          (children : list node).

Fixpoint strEqb (a b : jsstring) : bool :=
  match a, b with
  | [], [] => true
  | x :: a', y :: b' => N.eqb x y && strEqb a' b'
  | _, _ => false
  end.

(** Match of a type selector such as ['p']: elements made by the HTML
    parser carry lower-case names. *)
Definition hasTag (name : string) (n : node) : bool :=
  match n with
  | Element tag _ _ => strEqb tag (str name)
  | _ => false
  end.

(** [node.textContent] as seen from an ancestor element: the data of the
    text nodes below, in tree order; comments contribute nothing. *)
Fixpoint nodeText (n : node) : jsstring :=
  match n with
  | Text d => d
  | Comment _ => []
  | Element _ _ kids => flat_map nodeText kids
  end.

(** [element.textContent] of an element with children [kids]. *)
Definition textContent (kids : list node) : jsstring := flat_map nodeText kids.

(** [element.innerText].  The [div] is never attached to a document, so it
    is not being rendered, and for such an element the getter returns the
    same value as [textContent]. *)
Definition innerText (kids : list node) : jsstring := textContent kids.

End Dom.

Import Dom.

(** ** htmlToText *)

(** [element.querySelectorAll('br').forEach((br) => br.replaceWith('\n'))]:
    every [br] element below the [div] gives way to a text node holding one
    newline. *)
Fixpoint replaceBr (n : node) : node :=
  match n with
  | Element tag attrs kids =>
      if hasTag "br" n then Text [LF]
      else Element tag attrs (map replaceBr kids)
  | _ => n
  end.

(** The second loop of [processLineBreaks] on one list of siblings: a [p]
    that has a next sibling gets a text node with one newline right after
    it.  The node list of [querySelectorAll] is static and an inserted text
    node never changes whether another [p] has a next sibling, so the
    decisions are those taken on the list before any insertion. *)
Fixpoint separateSiblings (kids : list node) : list node :=
  match kids with
  | [] => []
  | n :: rest =>
      match rest with
      | [] => [n]
      | _ :: _ =>
          if hasTag "p" n then n :: Text [LF] :: separateSiblings rest
          else n :: separateSiblings rest
      end
  end.

Fixpoint separateParagraphs (n : node) : node :=
  match n with
  | Element tag attrs kids =>
      Element tag attrs (separateSiblings (map separateParagraphs kids))
  | _ => n
  end.

Definition processLineBreaks (element : list node) : list node :=
  separateSiblings (map separateParagraphs (map replaceBr element)).

(** The test of [removeEmptyParagraphs] on one paragraph:
    [content === '' || content === '\u00A0'] with
    [content = p.textContent.trim()]. *)
Definition emptyContent (p : node) : bool :=
  let content := trim (nodeText p) in
  strEqb content [] || strEqb content [NBSP].

(** Keep the nodes that pass [keep], in order, and apply [f] to each. *)
Definition keepMap (keep : node -> bool) (f : node -> node)
  : list node -> list node :=
  fix go (l : list node) : list node :=
    match l with
    | [] => []
    | k :: l' => if keep k then f k :: go l' else go l'
    end.

Definition keptParagraph (k : node) : bool :=
  negb (hasTag "p" k && emptyContent k).

(** [removeEmptyParagraphs] detaches every [p] that passes the test.  An
    outer [p] is visited before the paragraphs inside it, and detaching a
    paragraph whose text is blank does not change the test of any other. *)
Fixpoint pruneNode (n : node) : node :=
  match n with
  | Element tag attrs kids => Element tag attrs (keepMap keptParagraph pruneNode kids)
  | _ => n
  end.

Definition removeEmptyParagraphs (element : list node) : list node :=
  keepMap keptParagraph pruneNode element.

(** [/\u00A0/g] *)
Definition nbspPattern : regex := [One isNbsp].

(** [/\n{2,}/g] *)
Definition newlineRun : regex := [One isNl; One isNl; Many isNl].

Definition cleanupText (text : jsstring) : jsstring :=
  trim (replaceAll newlineRun [LF] (replaceAll nbspPattern [SPACE] text)).

(** [a || b] on strings: the empty string is falsy. *)
Definition orElse (a b : jsstring) : jsstring := if nonEmpty a then a else b.

Section HtmlToText.

(** [tempDiv.innerHTML = html]: the HTML fragment parser of the platform,
    giving the children of the [div]. *)
Variable parseFragment : jsstring -> list node.

Definition htmlToText (html : value) : jsstring :=
  if falsy html then []
  else
    match html with
    | String s =>
        let tempDiv := parseFragment s in
        let tempDiv := processLineBreaks tempDiv in
        let tempDiv := removeEmptyParagraphs tempDiv in
        cleanupText (orElse (innerText tempDiv) (orElse (textContent tempDiv) []))
    | Undefined | Null => []
    end.

End HtmlToText.

(** ** The fragment parser

    [parseHTML] models what the assignment to [innerHTML] does, for the
    markup the editor stores in a card: text, the character references
    [&nbsp;], [&amp;], [&lt;], [&gt;], [&quot;] and [&apos;], comments,
    [br] and the other void elements, [p] with the rule that a block-level
    start tag closes an open paragraph, and other elements as plain
    containers.  It follows the HTML standard on that markup (tokenizer
    states, "in body" insertion mode); foreign content, tables, raw-text
    elements, numeric references and the adoption agency algorithm are not
    modelled. *)

Module Html.

Inductive token :=
| Char (c : char)
| StartTag (name : jsstring) (attrs : list (jsstring * jsstring))
| EndTag (name : jsstring)
| CommentToken (data : jsstring).

(** A tag token under construction; names and values are collected in
    reverse. *)
Record tag := mkTag {
  closing : bool;
  tagName : jsstring;
  tagAttrs : list (jsstring * jsstring)
}.

Inductive state :=
| Data
| CharacterReference (name : jsstring)
| TagOpen
| EndTagOpen
| TagName (t : tag)
| BeforeAttributeName (t : tag)
| AttributeName (t : tag) (name : jsstring)
| AfterAttributeName (t : tag) (name : jsstring)
| BeforeAttributeValue (t : tag) (name : jsstring)
| AttributeValue (t : tag) (name : jsstring) (quote : option char)
                 (val : jsstring)
| AfterAttributeValue (t : tag)
| SelfClosingStartTag (t : tag)
| MarkupDeclarationOpen
| MarkupDeclarationDash
| BogusComment (data : jsstring)
| CommentState (data : jsstring) (dashes : nat).

Definition isUpper (c : char) : bool := N.leb 65 c && N.leb c 90.
Definition isLower (c : char) : bool := N.leb 97 c && N.leb c 122.
Definition isDigit (c : char) : bool := N.leb 48 c && N.leb c 57.
Definition isAlpha (c : char) : bool := isUpper c || isLower c.
Definition lower (c : char) : char := if isUpper c then (c + 32)%N else c.

(** The white space of the tokenizer: tab, line feed, form feed, space. *)
Definition isHtmlSpace (c : char) : bool :=
  N.eqb c 9 || N.eqb c 10 || N.eqb c 12 || N.eqb c 32.

Definition namedReferences : list (jsstring * char) :=
  [ (str "nbsp", NBSP); (str "amp", AMP); (str "lt", LT); (str "gt", GT);
    (str "quot", QUOT); (str "apos", 39%N) ].

Fixpoint lookupReference (name : jsstring) (table : list (jsstring * char))
  : option char :=
  match table with
  | [] => None
  | (n, c) :: table' =>
      if strEqb n name then Some c else lookupReference name table'
  end.

Definition emitTag (t : tag) : list token :=
  if closing t then [EndTag (rev (tagName t))]
  else [StartTag (rev (tagName t)) (rev (tagAttrs t))].

Definition withAttr (t : tag) (name val : jsstring) : tag :=
  mkTag (closing t) (tagName t) ((rev name, rev val) :: tagAttrs t).

Definition dataStep (c : char) : state * list token :=
  if N.eqb c AMP then (CharacterReference [], [])
  else if N.eqb c LT then (TagOpen, [])
  else (Data, [Char c]).

Definition beforeAttributeNameStep (t : tag) (c : char) : state * list token :=
  if isHtmlSpace c then (BeforeAttributeName t, [])
  else if N.eqb c 47 then (SelfClosingStartTag t, [])
  else if N.eqb c GT then (Data, emitTag t)
  else (AttributeName t [lower c], []).

Definition step (st : state) (c : char) : state * list token :=
  match st with
  | Data => dataStep c
  | CharacterReference name =>
      if isAlpha c || isDigit c then (CharacterReference (c :: name), [])
      else if N.eqb c 59 then
        match lookupReference (rev name) namedReferences with
        | Some r => (Data, [Char r])
        | None => (Data, map Char (AMP :: rev name ++ [c]))
        end
      else
        let (st', out) := dataStep c in
        (st', map Char (AMP :: rev name) ++ out)
  | TagOpen =>
      if isAlpha c then (TagName (mkTag false [lower c] []), [])
      else if N.eqb c 47 then (EndTagOpen, [])
      else if N.eqb c 33 then (MarkupDeclarationOpen, [])
      else if N.eqb c 63 then (BogusComment [c], [])
      else let (st', out) := dataStep c in (st', Char LT :: out)
  | EndTagOpen =>
      if isAlpha c then (TagName (mkTag true [lower c] []), [])
      else if N.eqb c GT then (Data, [])
      else (BogusComment [c], [])
  | TagName t =>
      if isHtmlSpace c then (BeforeAttributeName t, [])
      else if N.eqb c 47 then (SelfClosingStartTag t, [])
      else if N.eqb c GT then (Data, emitTag t)
      else (TagName (mkTag (closing t) (lower c :: tagName t) (tagAttrs t)), [])
  | BeforeAttributeName t => beforeAttributeNameStep t c
  | AttributeName t name =>
      if isHtmlSpace c then (AfterAttributeName t name, [])
      else if N.eqb c 47 then (SelfClosingStartTag (withAttr t name []), [])
      else if N.eqb c GT then (Data, emitTag (withAttr t name []))
      else if N.eqb c 61 then (BeforeAttributeValue t name, [])
      else (AttributeName t (lower c :: name), [])
  | AfterAttributeName t name =>
      if isHtmlSpace c then (AfterAttributeName t name, [])
      else if N.eqb c 61 then (BeforeAttributeValue t name, [])
      else beforeAttributeNameStep (withAttr t name []) c
  | BeforeAttributeValue t name =>
      if isHtmlSpace c then (BeforeAttributeValue t name, [])
      else if N.eqb c QUOT || N.eqb c 39 then
        (AttributeValue t name (Some c) [], [])
      else if N.eqb c GT then (Data, emitTag (withAttr t name []))
      else (AttributeValue t name None [c], [])
  | AttributeValue t name (Some q) val =>
      if N.eqb c q then (AfterAttributeValue (withAttr t name val), [])
      else (AttributeValue t name (Some q) (c :: val), [])
  | AttributeValue t name None val =>
      if isHtmlSpace c then (BeforeAttributeName (withAttr t name val), [])
      else if N.eqb c GT then (Data, emitTag (withAttr t name val))
      else (AttributeValue t name None (c :: val), [])
  | AfterAttributeValue t => beforeAttributeNameStep t c
  | SelfClosingStartTag t =>
      if N.eqb c GT then (Data, emitTag t) else beforeAttributeNameStep t c
  | MarkupDeclarationOpen =>
      if N.eqb c 45 then (MarkupDeclarationDash, [])
      else if N.eqb c GT then (Data, [CommentToken []])
      else (BogusComment [c], [])
  | MarkupDeclarationDash =>
      if N.eqb c 45 then (CommentState [] 0, [])
      else if N.eqb c GT then (Data, [CommentToken [45%N]])
      else (BogusComment [c; 45%N], [])
  | BogusComment data =>
      if N.eqb c GT then (Data, [CommentToken (rev data)])
      else (BogusComment (c :: data), [])
  | CommentState data dashes =>
      if N.eqb c 45 then (CommentState data (S dashes), [])
      else if N.eqb c GT && Nat.leb 2 dashes then
        (Data, [CommentToken (rev data ++ repeat 45%N (dashes - 2))])
      else (CommentState (c :: repeat 45%N dashes ++ data) 0, [])
  end.

(** What the tokenizer emits when the input ends in state [st]. *)
Definition atEnd (st : state) : list token :=
  match st with
  | CharacterReference name => map Char (AMP :: rev name)
  | TagOpen => [Char LT]
  | EndTagOpen => [Char LT; Char 47%N]
  | MarkupDeclarationOpen => [CommentToken []]
  | MarkupDeclarationDash => [CommentToken [45%N]]
  | BogusComment data => [CommentToken (rev data)]
  | CommentState data _ => [CommentToken (rev data)]
  | _ => []
  end.

Fixpoint tokenize (st : state) (s : jsstring) : list token :=
  match s with
  | [] => atEnd st
  | c :: s' => let (st', out) := step st c in out ++ tokenize st' s'
  end.

(** Newlines of the input stream are normalized before tokenization: a
    carriage return, with the line feed that may follow it, becomes one line
    feed. *)
Fixpoint normalizeNewlines (s : jsstring) : jsstring :=
  match s with
  | [] => []
  | c :: s' =>
      if N.eqb c CR then
        match s' with
        | d :: _ => if N.eqb d LF then normalizeNewlines s'
                    else LF :: normalizeNewlines s'
        | [] => [LF]
        end
      else c :: normalizeNewlines s'
  end.

(** *** Tree construction *)

(** An open element: its name, attributes and the children inserted so far,
    last first. *)
Record frame := mkFrame {
  frameTag : jsstring;
  frameAttrs : list (jsstring * jsstring);
  frameKids : list node
}.

(** The stack of open elements below the [div], innermost first, and the
    children of the [div] itself, last first. *)
Definition builder := (list frame * list node)%type.

Definition nameIn (name : jsstring) (names : list string) : bool :=
  existsb (fun n => strEqb name (str n)) names.

Definition voidElements : list string :=
  ["area"; "base"; "br"; "col"; "embed"; "hr"; "img"; "input"; "link";
   "meta"; "source"; "track"; "wbr"]%string.

(** Start tags that close an open [p] element. *)
Definition closesParagraph : list string :=
  ["address"; "article"; "aside"; "blockquote"; "center"; "details";
   "dialog"; "dir"; "div"; "dl"; "fieldset"; "figcaption"; "figure";
   "footer"; "header"; "hgroup"; "main"; "menu"; "nav"; "ol"; "p";
   "search"; "section"; "summary"; "ul"; "h1"; "h2"; "h3"; "h4"; "h5";
   "h6"; "pre"; "listing"; "form"; "li"; "dd"; "dt"; "hr"; "table"]%string.

(** Elements that bound the button scope. *)
Definition buttonScopeMarkers : list string :=
  ["applet"; "caption"; "html"; "table"; "td"; "th"; "marquee"; "object";
   "template"; "button"]%string.

Fixpoint inButtonScope (name : jsstring) (stack : list frame) : bool :=
  match stack with
  | [] => false
  | f :: fs =>
      if strEqb (frameTag f) name then true
      else if nameIn (frameTag f) buttonScopeMarkers then false
      else inButtonScope name fs
  end.

Definition isOpen (name : jsstring) (stack : list frame) : bool :=
  existsb (fun f => strEqb (frameTag f) name) stack.

Definition addKids (kids : list node) (f : frame) : frame :=
  mkFrame (frameTag f) (frameAttrs f) (kids ++ frameKids f).

Definition insertNode (n : node) (b : builder) : builder :=
  match b with
  | ([], root) => ([], n :: root)
  | (f :: fs, root) => (addKids [n] f :: fs, root)
  end.

(** A character is appended to the text node that ends the current
    element, when there is one. *)
Definition appendChar (c : char) (kids : list node) : list node :=
  match kids with
  | Text d :: kids' => Text (d ++ [c]) :: kids'
  | _ => Text [c] :: kids
  end.

Definition insertChar (c : char) (b : builder) : builder :=
  match b with
  | ([], root) => ([], appendChar c root)
  | (f :: fs, root) =>
      (mkFrame (frameTag f) (frameAttrs f) (appendChar c (frameKids f)) :: fs,
       root)
  end.

Definition closeFrame (f : frame) : node :=
  Element (frameTag f) (frameAttrs f) (rev (frameKids f)).

(** Pop open elements up to and including the innermost one called
    [name]; [pending] are the elements popped so far, to be inserted into
    the next one. *)
Fixpoint popUntil (name : jsstring) (pending : list node)
         (stack : list frame) (root : list node) : builder :=
  match stack with
  | [] => ([], pending ++ root)
  | f :: fs =>
      let f' := addKids pending f in
      if strEqb (frameTag f) name then insertNode (closeFrame f') (fs, root)
      else popUntil name [closeFrame f'] fs root
  end.

(** At the end of the input every open element is closed. *)
Fixpoint popAll (pending : list node) (stack : list frame)
         (root : list node) : list node :=
  match stack with
  | [] => pending ++ root
  | f :: fs => popAll [closeFrame (addKids pending f)] fs root
  end.

Definition closeParagraph (b : builder) : builder :=
  if inButtonScope (str "p") (fst b) then popUntil (str "p") [] (fst b) (snd b)
  else b.

Definition startTag (name : jsstring) (attrs : list (jsstring * jsstring))
           (b : builder) : builder :=
  let b := if nameIn name closesParagraph then closeParagraph b else b in
  if nameIn name voidElements then insertNode (Element name attrs []) b
  else (mkFrame name attrs [] :: fst b, snd b).

Definition treeStep (b : builder) (t : token) : builder :=
  match t with
  | Char c => if N.eqb c NUL then b else insertChar c b
  | CommentToken d => insertNode (Comment d) b
  | StartTag name attrs => startTag name attrs b
  | EndTag name =>
      if strEqb name (str "br") then startTag name [] b
      else if strEqb name (str "p") then
        if inButtonScope name (fst b) then popUntil name [] (fst b) (snd b)
        else insertNode (Element name [] []) b
      else if isOpen name (fst b) then popUntil name [] (fst b) (snd b)
      else b
  end.

Definition buildTree (tokens : list token) : list node :=
  let b := fold_left treeStep tokens ([], []) in
  rev (popAll [] (fst b) (snd b)).

Definition parseHTML (html : jsstring) : list node :=
  buildTree (tokenize Data (normalizeNewlines html)).

End Html.

Import Html.


(** ** Predicates and constructions used in the statements *)

Definition startsWithSpace (s : jsstring) : bool :=
  match s with
  | c :: _ => isSpace c
  | [] => false
  end.

Definition endsWithSpace (s : jsstring) : bool := startsWithSpace (rev s).

(** Two newline characters next to each other somewhere in [s]. *)
Fixpoint hasNewlineRun (s : jsstring) : bool :=
  match s with
  | c :: s' => (isNl c && match s' with d :: _ => isNl d | [] => false end)
               || hasNewlineRun s'
  | [] => false
  end.

(** A string made of white space only (the empty string included). *)
Definition blank (s : jsstring) : bool := forallb isSpace s.

(** [r] matches nowhere in [s]. *)
Fixpoint noMatch (r : regex) (s : jsstring) : bool :=
  match s with
  | [] => true
  | _ :: s' =>
      match matchHere r s with
      | Some (S _) => false
      | _ => noMatch r s'
      end
  end.

(** [s] has no white space at either end. *)
Definition tight (s : jsstring) : Prop :=
  startsWithSpace s = false /\ endsWithSpace s = false.

(** The longest prefix of [s] made of characters in [p]. *)
Fixpoint takeWhile (p : char -> bool) (s : jsstring) : jsstring :=
  match s with
  | [] => []
  | c :: s' => if p c then c :: takeWhile p s' else []
  end.

(** Put [a] in front of the first string of [l]. *)
Definition prefixFirst (a : jsstring) (l : list jsstring) : list jsstring :=
  match l with
  | [] => []
  | x :: l' => (a ++ x) :: l'
  end.

(** A line as [textToCardHTMLs] keeps it: not empty, no white space at
    either end, no newline inside. *)
Definition cleanLine (l : jsstring) : Prop :=
  l <> [] /\ tight l /\ Forall (fun c => isNl c = false) l.

(** Input that is absent or holds white space only. *)
Definition blankInput (v : value) : bool :=
  match v with
  | Undefined | Null => true
  | String s => blank s
  end.

(** A paragraph of a plain text block: it holds no paragraph separator
    and is not empty after trimming. *)
Definition isParagraph (p : jsstring) : bool :=
  noMatch paragraphSeparator p && nonEmpty (trim p).

(** A run of blank lines between two paragraphs: white space with at least
    two newline characters. *)
Definition blankLineRun (sep : jsstring) : bool :=
  blank sep && Nat.leb 2 (length (filter isNl sep)).

(** The text made of the paragraph [p] followed by the paragraphs of
    [rest], each after its separator. *)
Fixpoint paragraphsText (p : jsstring) (rest : list (jsstring * jsstring))
  : jsstring :=
  match rest with
  | [] => p
  | (sep, q) :: rest' => p ++ sep ++ paragraphsText q rest'
  end.

(** [/\s*\n/], the part of the paragraph separator after its first
    newline. *)
Definition spaceNewline : regex := [Many isSpace; One isNl].

(** The HTML metacharacters. *)
Definition isMeta (c : char) : bool := N.eqb c LT || N.eqb c GT || N.eqb c AMP.

(** Characters that do not come back as they went in: the non-breaking
    space, which [cleanupText] turns into a space, the carriage return,
    which the parser turns into a line feed, and NUL, which it drops. *)
Definition altered (c : char) : bool :=
  isNbsp c || N.eqb c CR || N.eqb c NUL.

(** The lines of a text, cut at each newline character. *)
Fixpoint textLines (current : jsstring) (s : jsstring) : list jsstring :=
  match s with
  | [] => [rev current]
  | c :: s' =>
      if isNl c then rev current :: textLines [] s'
      else textLines (c :: current) s'
  end.

(** A text line for line, each line trimmed and the blank lines left out. *)
Definition trimmedLines (p : jsstring) : list jsstring :=
  filter nonEmpty (map trim (textLines [] p)).

(** The text with each line trimmed and runs of blank lines collapsed. *)
Definition normalizedText (p : jsstring) : jsstring :=
  join [LF] (trimmedLines p).

(** [sep] between the elements of [l]. *)
Fixpoint intersperse {A : Type} (sep : A) (l : list A) : list A :=
  match l with
  | [] => []
  | [x] => [x]
  | x :: l' => x :: sep :: intersperse sep l'
  end.

(** The children of the paragraph of a card: its lines with a [br] between
    them. *)
Definition lineNodes (lines : list jsstring) : list node :=
  intersperse (Element (str "br") [] []) (map Text lines).

(** The same children once each [br] is replaced. *)
Definition lineTexts (lines : list jsstring) : list node :=
  intersperse (Text [LF]) (map Text lines).

(** The tokens of the lines of a card joined by [<br>]. *)
Fixpoint lineTokens (lines : list jsstring) : list token :=
  match lines with
  | [] => []
  | [l] => map Char l
  | l :: ls => map Char l ++ StartTag (str "br") [] :: lineTokens ls
  end.

(** The paragraph element of a card. *)
Definition cardParagraph (kids : list node) : node :=
  Element (str "p") [(str "style", str "text-align:center;")] kids.

Definition isText (n : node) : bool :=
  match n with
  | Text _ => true
  | _ => false
  end.

(** The newline that follows a [p] with a next sibling. *)
Definition afterParagraph (k : node) (rest : list node) : jsstring :=
  match rest with
  | [] => []
  | _ :: _ => if hasTag "p" k then [LF] else []
  end.

(** The text flow of a tree as [processLineBreaks] is meant to leave it:
    a [br] reads as one newline, and a [p] that has a next sibling is
    followed by one newline. *)
Fixpoint flowNode (n : node) : jsstring :=
  match n with
  | Text d => d
  | Comment _ => []
  | Element tag _ kids =>
      if hasTag "br" n then [LF]
      else
        (fix flow (l : list node) : jsstring :=
           match l with
           | [] => []
           | k :: l' => flowNode k ++ afterParagraph k l' ++ flow l'
           end) kids
  end.

Fixpoint textFlow (l : list node) : jsstring :=
  match l with
  | [] => []
  | k :: l' => flowNode k ++ afterParagraph k l' ++ textFlow l'
  end.

(** No [br] element anywhere in the tree. *)
Fixpoint noBr (n : node) : bool :=
  match n with
  | Element _ _ kids => negb (hasTag "br" n) && forallb noBr kids
  | _ => true
  end.

(** No [p] element with blank text anywhere in the tree. *)
Fixpoint noEmptyParagraph (n : node) : bool :=
  match n with
  | Element _ _ kids =>
      negb (hasTag "p" n && emptyContent n) && forallb noEmptyParagraph kids
  | _ => true
  end.

(** The strings kept of a list of pieces: trimmed, the empty ones left
    out. *)
Definition kept (pieces : list jsstring) : list jsstring :=
  filter nonEmpty (map trim pieces).

(** A paragraph element that holds one line of text. *)
Definition paragraphOf (al : list (jsstring * jsstring) * jsstring) : node :=
  Element (str "p") (fst al) [Text (snd al)].

(** A line of text that is not empty, has no white space at either end
    and holds neither a newline nor a non-breaking space. *)
Definition plainLine (l : jsstring) : bool :=
  nonEmpty l && negb (startsWithSpace l) && negb (endsWithSpace l)
  && forallb (fun c => negb (isNl c || isNbsp c)) l.

Definition headIsText (kids : list node) : bool :=
  match kids with
  | Text _ :: _ => true
  | _ => false
  end.

(** Characters that reach the tree as they are written. *)
Definition literal (c : char) : Prop :=
  N.eqb c AMP = false /\ N.eqb c LT = false
  /\ N.eqb c CR = false /\ N.eqb c NUL = false.

(** A paragraph whose two letters are separated by a non-breaking
    space. *)
Definition nbspParagraph : jsstring := str "a" ++ [NBSP] ++ str "b".

(** ** The editor widget

    The parts of [src/scripts/h5peditor-idea-board.js] that compute: the
    textual representation of the board, the choice of the view library and
    the lookup of a card group.  The view and the editor core are outside
    the program; what they hand over appears as an argument. *)

Module Board.

(** What [getTextualRepresentation] reads of a card:
    [card.contentType.library] and [card.contentType.params.text]. *)
Record card := mkCard {
  library : jsstring;
  text : value
}.

(** [s.startsWith(prefix)] *)
Fixpoint startsWith (prefix s : jsstring) : bool :=
  match prefix, s with
  | [], _ => true
  | _ :: _, [] => false
  | p :: prefix', c :: s' => N.eqb p c && startsWith prefix' s'
  end.

Definition isEditableText (c : card) : bool :=
  startsWith (str "H5P.EditableText") (library c).

Section TextualRepresentation.

Variable parseFragment : jsstring -> list node.

Definition getTextualRepresentation (cards : list card) : jsstring :=
  join [LF; LF]
       (map (fun card => htmlToText parseFragment (text card))
            (filter isEditableText cards)).

End TextualRepresentation.

(** [setFromTextualRepresentation]: the value handed to
    [ideaBoardView.addTextCards] once the board is cleared. *)
Definition setFromTextualRepresentation (text : value) : cardResult :=
  textToCardHTMLs text.

(** [Object.keys(H5PEditor.loadedCallbacks).filter(...).shift()] in the
    constructor, on the list of keys: [shift] gives [undefined] on an empty
    array. *)
Definition viewUberName (keys : list jsstring) : option jsstring :=
  hd_error (filter (startsWith (str "H5P.IdeaBoard ")) keys).

Section CardsList.

Variable child : Type.

(** The value of [group]: [false] or a child. *)
Inductive groupResult :=
| NoGroup
| Group (c : child).

(** The callback passed to [forEachChild]. *)
Definition pickGroup (index : nat) (group : groupResult) (ci : child * nat)
  : groupResult :=
  match group with
  | Group _ => group
  | NoGroup => if Nat.eqb (snd ci) index then Group (fst ci) else NoGroup
  end.

(** [cardsListInstance] is absent or holds its children; [forEachChild]
    of the list widget calls the callback on each child with its index,
    from the first on (the callback never asks it to stop). *)
Definition getCardsListGroupInstance (cardsListInstance : option (list child))
           (index : nat) : groupResult :=
  match cardsListInstance with
  | None => NoGroup
  | Some children =>
      fold_left (pickGroup index)
                (combine children (seq 0 (length children))) NoGroup
  end.

End CardsList.

End Board.

Import Board.

(** ** updateValue

    [updateValue] gives every card a [telemetry] object whose [height],
    [width], [x] and [y] are strings.  The values of these properties are
    any JavaScript values: the section takes their type, the test
    [v === undefined || v === null] behind [??], the conversion to a string
    of a template literal and the injection of strings as parameters. *)

Section Telemetry.

Variable jsval : Type.
Variable undefinedValue : jsval.
Variable nullish : jsval -> bool.
Variable toString : jsval -> jsstring.
Variable ofString : jsstring -> jsval.

(** The four properties [updateValue] writes; the others stay as they
    are. *)
Record telemetry := mkTelemetry {
  height : jsval;
  width : jsval;
  posX : jsval;
  posY : jsval
}.

(** A card: its [telemetry], absent or an object, and the rest of it. *)
Record boardCard (rest : Type) := mkBoardCard {
  cardTelemetry : option telemetry;
  cardRest : rest
}.

(** The template literal around [v ?? d], for a numeric literal [d] whose
    string form is [default]. *)
Definition orDefault (v : jsval) (default : jsstring) : jsval :=
  ofString (if nullish v then default else toString v).

(** [card.telemetry || {}] *)
Definition telemetryOrEmpty (t : option telemetry) : telemetry :=
  match t with
  | Some t => t
  | None =>
      mkTelemetry undefinedValue undefinedValue undefinedValue undefinedValue
  end.

Definition updateCard {rest : Type} (card : boardCard rest) : boardCard rest :=
  let t := telemetryOrEmpty (cardTelemetry rest card) in
  mkBoardCard rest
    (Some (mkTelemetry (orDefault (height t) (str "10"))
                       (orDefault (width t) (str "10"))
                       (orDefault (posX t) (str "0"))
                       (orDefault (posY t) (str "0"))))
    (cardRest rest card).

(** [(values.cards || []).map(...)], the new value of [values.cards]. *)
Definition updateCards {rest : Type} (cards : option (list (boardCard rest)))
  : list (boardCard rest) :=
  map updateCard (match cards with Some l => l | None => [] end).

End Telemetry.

(** The characters of [s] other than white space. *)
Definition visible (s : jsstring) : jsstring :=
  filter (fun c => negb (isSpace c)) s.

(** Every [br] element of the tree is without children, as the parser
    makes them. *)
Fixpoint brVoid (n : node) : bool :=
  match n with
  | Element _ _ kids =>
      if hasTag "br" n then match kids with [] => true | _ :: _ => false end
      else forallb brVoid kids
  | _ => true
  end.

(** A card that holds the text [html]. *)
Definition textCard (html : jsstring) : card :=
  mkCard (str "H5P.EditableText 1.0") (String html).

(** A text without HTML metacharacter, non-breaking space, carriage
    return or NUL. *)
Definition plainText (t : jsstring) : bool :=
  negb (existsb isMeta t) && negb (existsb altered t).

(** The paragraph element written out for given lines: the opening tag
    with the centering style, the lines with [<br>] between them, the
    closing tag. *)
Definition centeredParagraph (lines : list jsstring) : jsstring :=
  str "<p style=" ++ [QUOT] ++ str "text-align:center;" ++ [QUOT] ++ str ">"
  ++ join (str "<br>") lines ++ str "</p>".

(** * The model at work *)

Example trim_example :
  trim ([SPACE; NBSP] ++ str "a b" ++ [SPACE; LF; 9%N]) = str "a b".
Proof. reflexivity. Qed.

Example split_paragraphs_example :
  split paragraphSeparator
        (str "A" ++ [LF; SPACE; LF; LF; SPACE] ++ str "B" ++ [LF] ++ str "C"
         ++ [LF; LF])
  = [str "A"; SPACE :: str "B" ++ [LF] ++ str "C"; []].
Proof. reflexivity. Qed.

Example split_lines_example :
  split lineSeparator (str "B" ++ [LF; LF] ++ str "C")
  = [str "B"; []; str "C"].
Proof. reflexivity. Qed.

Example collapse_example :
  replaceAll newlineRun [LF] (str "a" ++ [LF; LF; LF] ++ str "b" ++ [LF] ++ str "c")
  = str "a" ++ [LF] ++ str "b" ++ [LF] ++ str "c".
Proof. reflexivity. Qed.

Example parseHTML_example :
  parseHTML (str "Line1<br>Line2<P class=x>a &amp; b<p>c</p>d")
  = [Text (str "Line1"); Element (str "br") [] []; Text (str "Line2");
     Element (str "p") [(str "class", str "x")] [Text (str "a & b")];
     Element (str "p") [] [Text (str "c")]; Text (str "d")].
Proof. reflexivity. Qed.

Example processLineBreaks_example :
  processLineBreaks (parseHTML (str "<p>A<br>B</p><p>C</p>"))
  = [Element (str "p") [] [Text (str "A"); Text [LF]; Text (str "B")];
     Text [LF]; Element (str "p") [] [Text (str "C")]].
Proof. reflexivity. Qed.

Example htmlToText_only_nbsp_paragraph :
  htmlToText parseHTML (String (str "<p>&nbsp;</p>")) = [].
Proof. reflexivity. Qed.

Example textToCardHTMLs_blank_lines :
  textToCardHTMLs (String [LF; LF; LF]) = CardArray [].
Proof. reflexivity. Qed.

(** * Lemmas on strings *)

Section DropWhile.

Variable p : char -> bool.

Lemma takeWhile_dropWhile s : takeWhile p s ++ dropWhile p s = s.
Proof.
  induction s as [|c s IH]; simpl; [reflexivity|].
  destruct (p c); simpl; [now rewrite IH | reflexivity].
Qed.

Lemma takeWhile_all s : forallb p (takeWhile p s) = true.
Proof.
  induction s as [|c s IH]; simpl; [reflexivity|].
  destruct (p c) eqn:E; simpl; [now rewrite E | reflexivity].
Qed.

Lemma skipn_takeWhile s : skipn (length (takeWhile p s)) s = dropWhile p s.
Proof.
  induction s as [|c s IH]; simpl; [reflexivity|].
  destruct (p c); simpl; [exact IH | reflexivity].
Qed.

Lemma dropWhile_head s : match dropWhile p s with c :: _ => p c = false | [] => True end.
Proof.
  induction s as [|c s IH]; simpl; [exact I|].
  destruct (p c) eqn:E; [exact IH | exact E].
Qed.

Lemma dropWhile_all s t : forallb p s = true -> dropWhile p (s ++ t) = dropWhile p t.
Proof.
  induction s as [|c s IH]; simpl; [reflexivity|].
  intros H. apply andb_true_iff in H as [Hc Hs]. rewrite Hc. auto.
Qed.

Lemma dropWhile_stop c s : p c = false -> dropWhile p (c :: s) = c :: s.
Proof. intros H; simpl; now rewrite H. Qed.

Lemma dropWhile_app_stop s c t :
  p c = false -> dropWhile p (s ++ c :: t) = dropWhile p s ++ c :: t.
Proof.
  intros H. induction s as [|d s IH]; simpl; [now rewrite H|].
  destruct (p d); [exact IH | reflexivity].
Qed.

Lemma dropWhile_incl s : forall c, In c (dropWhile p s) -> In c s.
Proof.
  induction s as [|d s IH]; simpl; [tauto|].
  destruct (p d); simpl; auto.
Qed.

End DropWhile.

Lemma forallb_rev (p : char -> bool) s : forallb p (rev s) = forallb p s.
Proof.
  induction s as [|c s IH]; simpl; [reflexivity|].
  rewrite forallb_app, IH. simpl. rewrite andb_true_r. apply andb_comm.
Qed.

Lemma trim_unique a m b :
  blank a = true -> blank b = true -> tight m -> trim (a ++ m ++ b) = m.
Proof.
  intros Ha Hb [Hs He]. unfold trim, trimStart, trimEnd.
  rewrite (dropWhile_all _ _ _ Ha).
  destruct m as [|c m].
  - simpl. replace b with (b ++ []) by apply app_nil_r.
    rewrite (dropWhile_all _ _ _ Hb). reflexivity.
  - simpl in Hs. rewrite <- app_comm_cons, (dropWhile_stop _ _ _ Hs).
    rewrite app_comm_cons, rev_app_distr.
    rewrite dropWhile_all by (unfold blank in Hb; now rewrite forallb_rev).
    unfold endsWithSpace in He.
    destruct (rev (c :: m)) as [|d r] eqn:E.
    + apply (f_equal (@rev char)) in E. now rewrite rev_involutive in E.
    + simpl in He. rewrite (dropWhile_stop _ _ _ He), <- E.
      apply rev_involutive.
Qed.

Lemma trim_decompose s :
  exists a b, s = a ++ trim s ++ b /\ blank a = true /\ blank b = true.
Proof.
  exists (takeWhile isSpace s),
         (rev (takeWhile isSpace (rev (dropWhile isSpace s)))).
  split; [|split].
  - unfold trim, trimEnd, trimStart.
    rewrite <- rev_app_distr, takeWhile_dropWhile, rev_involutive.
    symmetry; apply takeWhile_dropWhile.
  - apply takeWhile_all.
  - unfold blank. rewrite forallb_rev. apply takeWhile_all.
Qed.

Lemma trim_tight s : tight (trim s).
Proof.
  unfold tight, trim, trimEnd, trimStart, endsWithSpace.
  rewrite rev_involutive. split.
  - pose proof (dropWhile_head isSpace s) as H.
    destruct (dropWhile isSpace s) as [|c u] eqn:E; [reflexivity|].
    simpl rev. rewrite (dropWhile_app_stop _ _ _ _ H), rev_app_distr.
    simpl. exact H.
  - pose proof (dropWhile_head isSpace (rev (dropWhile isSpace s))) as H.
    destruct (dropWhile isSpace (rev (dropWhile isSpace s))); simpl; auto.
Qed.

Lemma trim_of_tight s : tight s -> trim s = s.
Proof.
  intros H. rewrite <- (trim_unique [] s [] eq_refl eq_refl H) at 2.
  now rewrite app_nil_r.
Qed.

Lemma trim_idempotent s : trim (trim s) = trim s.
Proof. apply trim_of_tight, trim_tight. Qed.

Lemma trim_blank_l a s : blank a = true -> trim (a ++ s) = trim s.
Proof.
  intros Ha. destruct (trim_decompose s) as (x & y & E & Hx & Hy).
  rewrite E at 1. rewrite app_assoc. apply trim_unique; auto using trim_tight.
  unfold blank in *. rewrite forallb_app. now rewrite Ha, Hx.
Qed.

Lemma trim_blank_r s b : blank b = true -> trim (s ++ b) = trim s.
Proof.
  intros Hb. destruct (trim_decompose s) as (x & y & E & Hx & Hy).
  rewrite E at 1. rewrite <- !app_assoc. apply trim_unique; auto using trim_tight.
  unfold blank in *. rewrite forallb_app. now rewrite Hb, Hy.
Qed.

Lemma trim_blank s : blank s = true -> trim s = [].
Proof.
  intros H. rewrite <- (app_nil_r s). rewrite trim_blank_l by exact H.
  reflexivity.
Qed.

Lemma trim_incl s c : In c (trim s) -> In c s.
Proof.
  destruct (trim_decompose s) as (x & y & E & _). intros H.
  rewrite E. apply in_or_app. right. apply in_or_app. now left.
Qed.

Lemma trim_nonblank s : blank s = false -> trim s <> [].
Proof.
  intros H E. destruct (trim_decompose s) as (x & y & D & Hx & Hy).
  rewrite E in D. simpl in D. rewrite D in H. unfold blank in *.
  rewrite forallb_app, Hx, Hy in H. discriminate.
Qed.

(** * Lemmas on [split] and [replace] *)

Section Scanning.

Variable r : regex.

Lemma splitGo_skip k : forall acc s,
  splitGo r k acc s = splitGo r 0 acc (skipn k s).
Proof.
  induction k as [|k IH]; intros acc s; [reflexivity|].
  destruct s as [|c s]; [reflexivity|]. simpl skipn. rewrite <- IH.
  reflexivity.
Qed.

Lemma matchHere_nil k : matchHere r [] <> Some (S k).
Proof.
  induction r as [|[q|q] r' IH]; simpl; try discriminate. exact IH.
Qed.

(** The two cases of one step of [split] at a position with no pending
    match. *)
Lemma splitGo_match acc s k :
  matchHere r s = Some (S k) ->
  splitGo r 0 acc s = rev acc :: splitGo r 0 [] (skipn (S k) s).
Proof.
  destruct s as [|c s]; simpl skipn.
  - intros H. now apply matchHere_nil in H.
  - intros H. simpl. rewrite H. now rewrite splitGo_skip.
Qed.

Lemma splitGo_pass acc c s :
  (forall k, matchHere r (c :: s) <> Some (S k)) ->
  splitGo r 0 acc (c :: s) = splitGo r 0 (c :: acc) s.
Proof.
  intros H. simpl. destruct (matchHere r (c :: s)) as [[|k]|] eqn:E;
    try reflexivity.
  now destruct (H k).
Qed.

(** The piece being collected only prefixes the first piece returned. *)
Lemma splitGo_acc s : forall k acc,
  splitGo r k acc s = prefixFirst (rev acc) (splitGo r k [] s).
Proof.
  induction s as [|c s IH]; intros k acc; simpl.
  - now rewrite app_nil_r.
  - destruct k as [|k]; [|apply IH].
    destruct (matchHere r (c :: s)) as [[|j]|]; simpl;
      try (now rewrite app_nil_r).
    + rewrite (IH 0 (c :: acc)), (IH 0 [c]). simpl.
      destruct (splitGo r 0 [] s); simpl; [reflexivity|].
      now rewrite <- app_assoc.
    + rewrite (IH 0 (c :: acc)), (IH 0 [c]). simpl.
      destruct (splitGo r 0 [] s); simpl; [reflexivity|].
      now rewrite <- app_assoc.
Qed.

Lemma splitGo_noMatch s : forall acc,
  noMatch r s = true -> splitGo r 0 acc s = [rev acc ++ s].
Proof.
  induction s as [|c s IH]; intros acc H; simpl.
  - now rewrite app_nil_r.
  - simpl in H. destruct (matchHere r (c :: s)) as [[|j]|];
      try discriminate; rewrite (IH _ H); simpl; now rewrite <- app_assoc.
Qed.

Lemma split_noMatch s : noMatch r s = true -> split r s = [s].
Proof. apply splitGo_noMatch. Qed.

(** Every piece is made of characters of the input. *)
Lemma splitGo_incl (P : char -> Prop) s : forall k acc,
  Forall P acc -> Forall P s -> Forall (Forall P) (splitGo r k acc s).
Proof.
  induction s as [|c s IH]; intros k acc Ha Hs; simpl.
  - constructor; [|constructor]. now apply Forall_rev.
  - inversion Hs; subst. destruct k as [|k]; [|now apply IH].
    destruct (matchHere r (c :: s)) as [[|j]|].
    + apply IH; auto.
    + constructor; [now apply Forall_rev | apply IH; auto].
    + apply IH; auto.
Qed.

Variable by_ : jsstring.

Lemma replaceGo_skip k : forall s,
  replaceGo r by_ k s = replaceGo r by_ 0 (skipn k s).
Proof.
  induction k as [|k IH]; intros s; [reflexivity|].
  destruct s as [|c s]; [reflexivity|]. simpl skipn. rewrite <- IH.
  reflexivity.
Qed.

Lemma replaceAll_match s k :
  matchHere r s = Some (S k) ->
  replaceAll r by_ s = by_ ++ replaceAll r by_ (skipn (S k) s).
Proof.
  unfold replaceAll. destruct s as [|c s]; simpl skipn.
  - intros H. now apply matchHere_nil in H.
  - intros H. simpl. rewrite H. now rewrite replaceGo_skip.
Qed.

Lemma replaceAll_pass c s :
  (forall k, matchHere r (c :: s) <> Some (S k)) ->
  replaceAll r by_ (c :: s) = c :: replaceAll r by_ s.
Proof.
  intros H. unfold replaceAll. simpl.
  destruct (matchHere r (c :: s)) as [[|k]|] eqn:E; try reflexivity.
  now destruct (H k).
Qed.

Lemma replaceAll_noMatch s : noMatch r s = true -> replaceAll r by_ s = s.
Proof.
  unfold replaceAll. induction s as [|c s IH]; intros H; simpl; [reflexivity|].
  simpl in H. destruct (matchHere r (c :: s)) as [[|j]|];
    try discriminate; now rewrite (IH H).
Qed.

Lemma replaceGo_incl (P : char -> Prop) s : forall k,
  Forall P by_ -> Forall P s -> Forall P (replaceGo r by_ k s).
Proof.
  induction s as [|c s IH]; intros k Hb Hs; simpl; [constructor|].
  inversion Hs; subst. destruct k as [|k]; [|now apply IH].
  destruct (matchHere r (c :: s)) as [[|j]|].
  - constructor; auto.
  - apply Forall_app; split; auto.
  - constructor; auto.
Qed.

End Scanning.

(** What the patterns of the program match. *)

Lemma matchHere_many_last p s :
  matchHere [Many p] s = Some (length (takeWhile p s)).
Proof.
  induction s as [|c s IH]; [reflexivity|].
  change (matchHere [Many p] (c :: s))
    with (if p c then match matchHere [Many p] s with
                      | Some k => Some (S k)
                      | None => Some 0
                      end
          else Some 0).
  rewrite IH. simpl. destruct (p c); reflexivity.
Qed.

Lemma matchHere_newlineRun s :
  matchHere newlineRun s =
  match s with
  | c :: d :: t =>
      if isNl c && isNl d then Some (2 + length (takeWhile isNl t)) else None
  | _ => None
  end.
Proof.
  destruct s as [|c [|d t]]; unfold newlineRun.
  - reflexivity.
  - simpl. destruct (isNl c); reflexivity.
  - change (matchHere [One isNl; One isNl; Many isNl] (c :: d :: t))
      with (if isNl c then
              option_map S (if isNl d then option_map S (matchHere [Many isNl] t)
                            else None)
            else None).
    rewrite matchHere_many_last. destruct (isNl c), (isNl d); reflexivity.
Qed.

Lemma matchHere_one p s :
  matchHere [One p] s =
  match s with
  | c :: _ => if p c then Some 1 else None
  | [] => None
  end.
Proof. destruct s as [|c s]; simpl; [|destruct (p c)]; reflexivity. Qed.

(** [cleanupText] leaves no run of newlines. *)
Lemma collapse_no_run s :
  hasNewlineRun (replaceAll newlineRun [LF] s) = false
  /\ (match s with c :: _ => isNl c = false | [] => True end ->
      match replaceAll newlineRun [LF] s with
      | c :: _ => isNl c = false
      | [] => True
      end).
Proof.
  remember (length s) as n eqn:Hn. revert s Hn.
  induction n as [n IH] using lt_wf_ind. intros s Hn.
  destruct s as [|c s]; [split; [reflexivity | auto]|].
  destruct (matchHere newlineRun (c :: s)) as [[|k]|] eqn:E.
  - rewrite matchHere_newlineRun in E.
    destruct s as [|d t]; [discriminate|]. destruct (isNl c && isNl d); discriminate.
  - rewrite (replaceAll_match _ _ _ _ E).
    rewrite matchHere_newlineRun in E. destruct s as [|d t]; [discriminate|].
    destruct (isNl c) eqn:Ec; [|discriminate].
    destruct (isNl d) eqn:Ed; [|discriminate].
    simpl in E. injection E as <-.
    change (skipn (S (S (length (takeWhile isNl t)))) (c :: d :: t))
      with (skipn (length (takeWhile isNl t)) t).
    rewrite skipn_takeWhile.
    destruct (IH (length (dropWhile isNl t))) with (s := dropWhile isNl t)
      as [H1 H2]; [|reflexivity|].
    + subst n. simpl.
      rewrite <- (takeWhile_dropWhile isNl t) at 2. rewrite length_app. lia.
    + specialize (H2 (dropWhile_head isNl t)).
      split; [|intros [=]].
      simpl app. simpl hasNewlineRun. rewrite H1.
      destruct (replaceAll newlineRun [LF] (dropWhile isNl t)); simpl;
        [reflexivity|]. rewrite H2. reflexivity.
  - rewrite replaceAll_pass by (intros k; rewrite E; discriminate).
    destruct (IH (length s)) with (s := s) as [H1 H2];
      [subst n; simpl; lia | reflexivity |].
    split; [|intros H; exact H].
    simpl hasNewlineRun. rewrite H1, orb_false_r.
    destruct (isNl c) eqn:Ec; [|reflexivity]. simpl.
    rewrite matchHere_newlineRun in E. rewrite Ec in E.
    destruct s as [|d t]; [reflexivity|].
    destruct (isNl d) eqn:Ed; [discriminate|].
    specialize (H2 eq_refl).
    destruct (replaceAll newlineRun [LF] (d :: t)); [reflexivity | exact H2].
Qed.

Lemma hasNewlineRun_app_false a b :
  hasNewlineRun (a ++ b) = false -> hasNewlineRun a = false /\ hasNewlineRun b = false.
Proof.
  induction a as [|c a IH]; simpl; [auto|].
  intros H. apply orb_false_iff in H as [H1 H2].
  destruct (IH H2) as [Ha Hb]. split; [|exact Hb].
  rewrite Ha, orb_false_r. destruct (isNl c); [|reflexivity]. simpl in *.
  destruct a as [|d a]; [reflexivity|exact H1].
Qed.

Lemma trim_no_run s : hasNewlineRun s = false -> hasNewlineRun (trim s) = false.
Proof.
  intros H. destruct (trim_decompose s) as (a & b & E & _).
  rewrite E in H. apply hasNewlineRun_app_false in H as [_ H].
  now apply hasNewlineRun_app_false in H as [H _].
Qed.

Lemma replace_nbsp s :
  Forall (fun c => isNbsp c = false) (replaceAll nbspPattern [SPACE] s).
Proof.
  induction s as [|c s IH]; [constructor|].
  destruct (isNbsp c) eqn:E.
  - rewrite (replaceAll_match _ _ _ 0) by (simpl; now rewrite E).
    constructor; [reflexivity | exact IH].
  - rewrite replaceAll_pass by (simpl; rewrite E; discriminate).
    constructor; assumption.
Qed.

Lemma cleanupText_invariant text :
  hasNewlineRun (cleanupText text) = false
  /\ existsb isNbsp (cleanupText text) = false
  /\ startsWithSpace (cleanupText text) = false
  /\ endsWithSpace (cleanupText text) = false.
Proof.
  unfold cleanupText. split; [|split].
  - apply trim_no_run, collapse_no_run.
  - assert (F : Forall (fun c => isNbsp c = false)
                  (trim (replaceAll newlineRun [LF]
                           (replaceAll nbspPattern [SPACE] text)))).
    { apply Forall_forall. intros c Hc. apply trim_incl in Hc.
      revert c Hc. apply Forall_forall, replaceGo_incl.
      - repeat constructor.
      - apply replace_nbsp. }
    induction F as [|c l Hc _ IH]; simpl; [reflexivity|now rewrite Hc].
  - apply trim_tight.
Qed.

(** * Lemmas on lines and sections *)

Lemma splitGo_nonnil r s : forall k acc, splitGo r k acc s <> [].
Proof.
  induction s as [|c s IH]; intros k acc; simpl; [discriminate|].
  destruct k as [|k]; [|apply IH].
  destruct (matchHere r (c :: s)) as [[|j]|]; try apply IH. discriminate.
Qed.

Lemma lines_cons acc c s :
  splitGo lineSeparator 0 acc (c :: s) =
  if isNl c then rev acc :: splitGo lineSeparator 0 [] s
  else splitGo lineSeparator 0 (c :: acc) s.
Proof. simpl. destruct (isNl c); reflexivity. Qed.

Lemma lines_no_newline s : forall acc,
  Forall (fun c => isNl c = false) acc ->
  Forall (Forall (fun c => isNl c = false)) (splitGo lineSeparator 0 acc s).
Proof.
  induction s as [|c s IH]; intros acc Ha.
  - simpl. constructor; [now apply Forall_rev | constructor].
  - rewrite lines_cons. destruct (isNl c) eqn:E.
    + constructor; [now apply Forall_rev | apply IH; constructor].
    + apply IH. constructor; assumption.
Qed.

Lemma nonEmpty_true s : nonEmpty s = true <-> s <> [].
Proof. destruct s; simpl; split; congruence. Qed.

Lemma cleanedLines_clean section : Forall cleanLine (cleanedLines section).
Proof.
  apply Forall_forall. intros l Hl. unfold cleanedLines in Hl.
  apply filter_In in Hl as [Hl Hn]. apply in_map_iff in Hl as (x & <- & Hx).
  split; [now apply nonEmpty_true | split; [apply trim_tight|]].
  apply Forall_forall. intros c Hc. apply trim_incl in Hc.
  pose proof (lines_no_newline section [] (Forall_nil _)) as F.
  rewrite Forall_forall in F. specialize (F x Hx).
  rewrite Forall_forall in F. now apply F.
Qed.

Lemma blank_cons_false c s : isSpace c = false -> blank (c :: s) = false.
Proof. intros H. unfold blank. simpl. now rewrite H. Qed.

(** A section that starts with a character other than white space keeps
    at least one line. *)
Lemma cleanedLines_nonnil section :
  section <> [] -> tight section -> cleanedLines section <> [].
Proof.
  destruct section as [|c s]; [congruence|]. intros _ [Hs _]. simpl in Hs.
  unfold cleanedLines, split. rewrite lines_cons.
  assert (Ec : isNl c = false).
  { destruct (isNl c) eqn:E; [|reflexivity]. unfold isNl in E.
    apply N.eqb_eq in E. subst c. discriminate. }
  rewrite Ec, splitGo_acc.
  destruct (splitGo lineSeparator 0 [] s) as [|x l] eqn:E;
    [now apply splitGo_nonnil in E|].
  simpl. pose proof (trim_nonblank (c :: x) (blank_cons_false c x Hs)) as T.
  apply nonEmpty_true in T. rewrite T. discriminate.
Qed.

Lemma sections_tight text :
  Forall (fun sec => sec <> [] /\ tight sec) (sections text).
Proof.
  apply Forall_forall. intros x Hx. unfold sections in Hx.
  apply filter_In in Hx as [Hx Hn]. apply in_map_iff in Hx as (y & <- & _).
  split; [now apply nonEmpty_true | apply trim_tight].
Qed.

Lemma sections_blank s : blank s = true -> sections s = [].
Proof.
  intros H. unfold sections, split.
  assert (F : Forall (Forall (fun c => isSpace c = true))
                     (splitGo paragraphSeparator 0 [] s)).
  { apply splitGo_incl; [constructor|]. apply Forall_forall.
    unfold blank in H. rewrite forallb_forall in H. exact H. }
  induction F as [|x l Hx _ IH]; [reflexivity|]. simpl.
  rewrite trim_blank; [exact IH|].
  unfold blank. apply forallb_forall. now apply Forall_forall.
Qed.

Lemma sections_all_empty s :
  Forall (fun piece => trim piece = []) (split paragraphSeparator s) ->
  sections s = [].
Proof.
  unfold sections. intros F.
  induction F as [|x l Hx _ IH]; [reflexivity|]. simpl. now rewrite Hx.
Qed.

Lemma textToCardHTMLs_string c s :
  textToCardHTMLs (String (c :: s)) = CardArray (map cardHTML (sections (c :: s))).
Proof. reflexivity. Qed.

Lemma orElse_same a : orElse a (orElse a []) = a.
Proof. destruct a; reflexivity. Qed.

(** * Paragraph separators *)

Lemma isNl_isSpace c : isNl c = true -> isSpace c = true.
Proof. unfold isNl. intros H. apply N.eqb_eq in H. now subst c. Qed.

Lemma separator_cons c s :
  matchHere paragraphSeparator (c :: s) =
  if isNl c then option_map S (matchHere spaceNewline s) else None.
Proof. reflexivity. Qed.

Lemma spaceNewline_nil : matchHere spaceNewline [] = None.
Proof. reflexivity. Qed.

Lemma spaceNewline_cons c s :
  matchHere spaceNewline (c :: s) =
  if isSpace c then
    match matchHere spaceNewline s with
    | Some k => Some (S k)
    | None => if isNl c then Some 1 else None
    end
  else if isNl c then Some 1 else None.
Proof.
  change (matchHere spaceNewline (c :: s))
    with (if isSpace c then
            match matchHere spaceNewline s with
            | Some k => Some (S k)
            | None => matchHere [One isNl] (c :: s)
            end
          else matchHere [One isNl] (c :: s)).
  rewrite matchHere_one. reflexivity.
Qed.

(** A match covers white space only. *)
Lemma spaceNewline_blank s : forall k,
  matchHere spaceNewline s = Some k -> blank (firstn k s) = true.
Proof.
  induction s as [|c s IH]; intros k H; [discriminate|].
  rewrite spaceNewline_cons in H.
  destruct (isSpace c) eqn:Ec.
  - destruct (matchHere spaceNewline s) as [j|] eqn:Ej.
    + injection H as <-. simpl. unfold blank in *. simpl.
      now rewrite Ec, (IH j eq_refl).
    + destruct (isNl c); [|discriminate]. injection H as <-.
      unfold blank. simpl. now rewrite Ec.
  - destruct (isNl c) eqn:En; [|discriminate].
    apply isNl_isSpace in En. congruence.
Qed.

(** White space up to a newline is matched. *)
Lemma spaceNewline_found a b :
  blank a = true -> matchHere spaceNewline (a ++ LF :: b) <> None.
Proof.
  induction a as [|c a IH]; intros H.
  - simpl app. rewrite spaceNewline_cons.
    destruct (matchHere spaceNewline b); vm_compute; discriminate.
  - unfold blank in H. simpl in H. apply andb_true_iff in H as [Hc Ha].
    specialize (IH Ha). simpl app. rewrite spaceNewline_cons, Hc.
    destruct (matchHere spaceNewline (a ++ LF :: b));
      [discriminate | congruence].
Qed.

(** The match is decided by the white space before the first other
    character. *)
Lemma spaceNewline_local a x b b' :
  blank a = true -> isSpace x = false ->
  matchHere spaceNewline (a ++ x :: b) = matchHere spaceNewline (a ++ x :: b').
Proof.
  induction a as [|c a IH]; intros H Hx.
  - simpl app. rewrite !spaceNewline_cons, Hx. reflexivity.
  - unfold blank in H. simpl in H. apply andb_true_iff in H as [Hc Ha].
    simpl app. rewrite !spaceNewline_cons, Hc, (IH Ha Hx). reflexivity.
Qed.

Lemma blank_or_not s :
  blank s = true
  \/ exists a x b, s = a ++ x :: b /\ blank a = true /\ isSpace x = false.
Proof.
  pose proof (takeWhile_dropWhile isSpace s) as D.
  pose proof (takeWhile_all isSpace s) as A.
  pose proof (dropWhile_head isSpace s) as H.
  destruct (dropWhile isSpace s) as [|x b].
  - left. rewrite app_nil_r in D. now rewrite <- D.
  - right. exists (takeWhile isSpace s), x, b. auto.
Qed.

Lemma blank_app a b : blank (a ++ b) = blank a && blank b.
Proof. apply forallb_app. Qed.

Lemma newline_in_blank s :
  blank s = true -> 1 <= length (filter isNl s) ->
  exists a b, s = a ++ LF :: b /\ blank a = true.
Proof.
  induction s as [|c s IH]; simpl; [lia|]. intros H L.
  unfold blank in H. simpl in H. apply andb_true_iff in H as [Hc Hs].
  destruct (isNl c) eqn:E.
  - exists [], s. split; [|reflexivity]. unfold isNl in E.
    apply N.eqb_eq in E. now subst c.
  - destruct (IH Hs L) as (a & b & -> & Ha). exists (c :: a), b.
    split; [reflexivity|]. unfold blank. simpl. now rewrite Hc.
Qed.

Lemma kept_prefixFirst a l : blank a = true -> kept (prefixFirst a l) = kept l.
Proof.
  intros H. destruct l as [|x l]; [reflexivity|]. unfold kept. simpl.
  now rewrite (trim_blank_l _ _ H).
Qed.

Lemma kept_cons x l : kept (x :: l) = kept [x] ++ kept l.
Proof. unfold kept. simpl. destruct (nonEmpty (trim x)); reflexivity. Qed.

(** White space in front of a text does not change its sections. *)
Lemma sections_space_cons : forall n s c,
  length s <= n -> isSpace c = true -> sections (c :: s) = sections s.
Proof.
  induction n as [n IH] using lt_wf_ind. intros s c Hn Hc.
  change (sections (c :: s)) with (kept (splitGo paragraphSeparator 0 [] (c :: s))).
  destruct (matchHere paragraphSeparator (c :: s)) as [[|k]|] eqn:E.
  - rewrite splitGo_pass by (intros k; rewrite E; discriminate).
    rewrite splitGo_acc. apply kept_prefixFirst. unfold blank. simpl.
    now rewrite Hc.
  - rewrite (splitGo_match _ _ _ _ E). simpl skipn.
    change (kept ?l) with (sections (skipn k s)).
    rewrite separator_cons in E. destruct (isNl c); [|discriminate].
    destruct (matchHere spaceNewline s) as [j|] eqn:Ej; [|discriminate].
    injection E as <-. pose proof (spaceNewline_blank _ _ Ej) as B.
    rewrite <- (firstn_skipn j s) at 2.
    assert (L : length (firstn j s ++ skipn j s) <= n)
      by now rewrite firstn_skipn.
    revert B L. generalize (firstn j s) as u. generalize (skipn j s) as t.
    intros t u. induction u as [|d u IHu]; intros B L; [reflexivity|].
    unfold blank in B. simpl in B. apply andb_true_iff in B as [Hd Hu].
    simpl in L. simpl app.
    rewrite (IH (length (u ++ t))) by (auto; lia).
    apply IHu; [exact Hu | lia].
  - rewrite splitGo_pass by (intros k; rewrite E; discriminate).
    rewrite splitGo_acc. apply kept_prefixFirst. unfold blank. simpl.
    now rewrite Hc.
Qed.

Lemma sections_blank_app a s : blank a = true -> sections (a ++ s) = sections s.
Proof.
  induction a as [|c a IH]; intros H; [reflexivity|].
  unfold blank in H. simpl in H. apply andb_true_iff in H as [Hc Ha].
  simpl app. rewrite (sections_space_cons (length (a ++ s))) by auto.
  now apply IH.
Qed.

(** Two texts that differ by white space in front have the same
    sections. *)
Lemma sections_after_blank w t u r :
  w ++ t = u ++ r -> blank w = true -> blank u = true ->
  sections r = sections t.
Proof.
  intros E Hw Hu. apply app_eq_app in E as [l [[-> ->]|[-> ->]]].
  - rewrite blank_app in Hw. apply andb_true_iff in Hw as [_ Hl].
    now rewrite sections_blank_app.
  - rewrite blank_app in Hu. apply andb_true_iff in Hu as [_ Hl].
    now rewrite sections_blank_app.
Qed.

(** A separator that starts in white space [w] before [t]: the text after
    it has the sections of [t]. *)
Lemma separator_rest w t k :
  blank w = true -> matchHere spaceNewline (w ++ t) = Some k ->
  sections (skipn k (w ++ t)) = sections t.
Proof.
  intros Hw E. apply (sections_after_blank w t (firstn k (w ++ t))); auto.
  - symmetry. apply firstn_skipn.
  - now apply spaceNewline_blank.
Qed.

Lemma noMatch_cons r c s :
  noMatch r (c :: s) =
  match matchHere r (c :: s) with
  | Some (S _) => false
  | _ => noMatch r s
  end.
Proof. reflexivity. Qed.

(** The blank lines after a paragraph end the piece being collected. *)
Lemma split_blank_lines t w : forall acc,
  blank w = true -> 2 <= length (filter isNl w) ->
  kept (splitGo paragraphSeparator 0 acc (w ++ t)) =
  kept [rev acc] ++ sections t.
Proof.
  induction w as [|c w IH]; intros acc B L; [simpl in L; lia|].
  unfold blank in B. simpl in B. apply andb_true_iff in B as [Hc Hw].
  simpl in L. simpl app. destruct (isNl c) eqn:E.
  - simpl in L.
    destruct (newline_in_blank w Hw) as (a & b & -> & Ha); [lia|].
    destruct (matchHere spaceNewline ((a ++ LF :: b) ++ t)) as [k|] eqn:Ek.
    + rewrite (splitGo_match _ _ _ k)
        by (rewrite separator_cons, E, Ek; reflexivity).
      simpl skipn. rewrite kept_cons.
      f_equal. apply separator_rest; auto.
    + rewrite <- app_assoc in Ek. simpl in Ek.
      now apply spaceNewline_found in Ek.
  - rewrite splitGo_pass
      by (intros k; rewrite separator_cons, E; discriminate).
    rewrite IH by (auto; lia). f_equal. unfold kept. simpl.
    replace (rev acc ++ [c]) with (rev acc ++ [c] ++ []) by reflexivity.
    rewrite app_assoc, app_nil_r, trim_blank_r; [reflexivity|].
    unfold blank. simpl. now rewrite Hc.
Qed.

(** A paragraph followed by blank lines gives one piece, and the rest of
    the text is split on its own. *)
Lemma split_paragraph t w p : forall acc,
  noMatch paragraphSeparator p = true ->
  blank w = true -> 2 <= length (filter isNl w) ->
  kept (splitGo paragraphSeparator 0 acc (p ++ w ++ t)) =
  kept [rev acc ++ p] ++ sections t.
Proof.
  induction p as [|c p IH]; intros acc N B L.
  - simpl app. rewrite app_nil_r. now apply split_blank_lines.
  - rewrite noMatch_cons, separator_cons in N. simpl app.
    replace (rev acc ++ c :: p) with (rev (c :: acc) ++ p)
      by (simpl; now rewrite <- app_assoc).
    destruct (isNl c) eqn:E.
    + destruct (matchHere spaceNewline p) as [j|] eqn:Ej; [discriminate|].
      simpl in N. destruct (blank_or_not p) as [Bp|(a & x & b & -> & Ha & Hx)].
      * destruct (matchHere spaceNewline (p ++ w ++ t)) as [k|] eqn:Ek.
        -- rewrite (splitGo_match _ _ _ k)
             by (rewrite separator_cons, E, Ek; reflexivity).
           simpl skipn. rewrite kept_cons.
           f_equal.
           ++ unfold kept. simpl. rewrite <- app_assoc.
              rewrite (trim_blank_r (rev acc) ([c] ++ p)); [reflexivity|].
              rewrite blank_app, Bp. unfold blank. simpl.
              now rewrite (isNl_isSpace _ E).
           ++ rewrite app_assoc in Ek |- *.
              apply separator_rest; auto. now rewrite blank_app, Bp, B.
        -- destruct (newline_in_blank w B) as (a & b & -> & Ha); [lia|].
           rewrite <- app_assoc, app_assoc in Ek. simpl in Ek.
           apply spaceNewline_found in Ek; [easy|].
           now rewrite blank_app, Bp, Ha.
      * rewrite <- app_assoc in *. simpl app in *.
        rewrite splitGo_pass.
        -- apply IH; auto.
        -- intros k. rewrite separator_cons, E.
           rewrite (spaceNewline_local a x _ b Ha Hx), Ej. discriminate.
    + rewrite splitGo_pass
        by (intros k; rewrite separator_cons, E; discriminate).
      apply IH; auto.
Qed.

Lemma trim_nonEmpty_nonblank p : nonEmpty (trim p) = true -> p <> [].
Proof. intros H ->. discriminate. Qed.

(** The sections of a text built from paragraphs are the paragraphs,
    trimmed, in order. *)
Lemma sections_paragraphsText rest : forall p,
  isParagraph p = true ->
  Forall (fun sq => blankLineRun (fst sq) = true /\ isParagraph (snd sq) = true)
         rest ->
  sections (paragraphsText p rest) = map trim (p :: map snd rest).
Proof.
  induction rest as [|[sep q] rest IH]; intros p Hp F.
  - apply andb_true_iff in Hp as [N T]. simpl.
    unfold sections. rewrite (split_noMatch _ _ N). simpl. now rewrite T.
  - inversion F as [|? ? [Hs Hq] F']; subst. simpl in Hs, Hq.
    apply andb_true_iff in Hp as [N T].
    apply andb_true_iff in Hs as [B L]. apply Nat.leb_le in L.
    simpl paragraphsText. unfold sections, split.
    change (filter nonEmpty (map trim ?l)) with (kept l).
    rewrite (split_paragraph _ _ _ [] N B L). simpl rev. simpl app at 1.
    unfold kept at 1. simpl. rewrite T. simpl. f_equal. now apply IH.
Qed.

(** * Lemmas on the tree operations *)

Lemma node_induction (P : node -> Prop) :
  (forall d, P (Text d)) ->
  (forall d, P (Comment d)) ->
  (forall tag attrs kids, Forall P kids -> P (Element tag attrs kids)) ->
  forall n, P n.
Proof.
  intros HT HC HE. fix IH 1. intros [d|d|tag attrs kids];
    [apply HT | apply HC | apply HE].
  induction kids as [|k kids IHk]; constructor; [apply IH | exact IHk].
Qed.

Lemma strEqb_eq a : forall b, strEqb a b = true <-> a = b.
Proof.
  induction a as [|x a IH]; intros [|y b]; simpl; split; try congruence.
  - intros H. apply andb_true_iff in H as [H1 H2].
    apply N.eqb_eq in H1. apply IH in H2. congruence.
  - intros [= -> ->]. rewrite N.eqb_refl. now apply IH.
Qed.

Lemma replaceBr_element tag attrs kids :
  replaceBr (Element tag attrs kids) =
  if strEqb tag (str "br") then Text [LF]
  else Element tag attrs (map replaceBr kids).
Proof. reflexivity. Qed.

Lemma separateParagraphs_element tag attrs kids :
  separateParagraphs (Element tag attrs kids) =
  Element tag attrs (separateSiblings (map separateParagraphs kids)).
Proof. reflexivity. Qed.

Lemma flowNode_element tag attrs kids :
  flowNode (Element tag attrs kids) =
  if strEqb tag (str "br") then [LF] else textFlow kids.
Proof.
  simpl. destruct (strEqb tag _); [reflexivity|].
  induction kids as [|k kids IH]; [reflexivity|]. simpl. now rewrite IH.
Qed.

(** Replacing line breaks and separating paragraphs keep the [p]
    elements. *)
Lemma hasTag_p_processed n :
  hasTag "p" (separateParagraphs (replaceBr n)) = hasTag "p" n.
Proof.
  destruct n as [d|d|tag attrs kids]; try reflexivity.
  rewrite replaceBr_element. destruct (strEqb tag (str "br")) eqn:E.
  - apply strEqb_eq in E. now subst tag.
  - reflexivity.
Qed.

Lemma separateSiblings_cons n m l :
  separateSiblings (n :: m :: l) =
  if hasTag "p" n then n :: Text [LF] :: separateSiblings (m :: l)
  else n :: separateSiblings (m :: l).
Proof. reflexivity. Qed.

Lemma textFlow_siblings l :
  Forall (fun n => nodeText (separateParagraphs (replaceBr n)) = flowNode n) l ->
  textContent (separateSiblings (map separateParagraphs (map replaceBr l)))
  = textFlow l.
Proof.
  induction 1 as [|n l Hn _ IH]; [reflexivity|].
  destruct l as [|m l].
  - simpl. rewrite Hn. now rewrite !app_nil_r.
  - simpl map in *. rewrite separateSiblings_cons, hasTag_p_processed.
    cbn [textFlow afterParagraph]. unfold textContent in *.
    destruct (hasTag "p" n); cbn [flat_map]; rewrite Hn, IH; reflexivity.
Qed.

Lemma flowNode_processed n :
  nodeText (separateParagraphs (replaceBr n)) = flowNode n.
Proof.
  induction n as [d|d|tag attrs kids IH] using node_induction;
    try reflexivity.
  rewrite replaceBr_element, flowNode_element.
  destruct (strEqb tag (str "br")); [reflexivity|].
  rewrite separateParagraphs_element. now apply textFlow_siblings.
Qed.

Lemma processLineBreaks_textContent element :
  textContent (processLineBreaks element) = textFlow element.
Proof.
  apply textFlow_siblings, Forall_forall. intros n _. apply flowNode_processed.
Qed.

Lemma noBr_siblings l :
  forallb noBr l = true -> forallb noBr (separateSiblings l) = true.
Proof.
  induction l as [|n l IH]; [reflexivity|]. intros H.
  simpl in H. apply andb_true_iff in H as [Hn Hl].
  destruct l as [|m l]; [simpl; now rewrite Hn|].
  rewrite separateSiblings_cons. specialize (IH Hl).
  destruct (hasTag "p" n); cbn [forallb]; rewrite Hn, IH; reflexivity.
Qed.

Lemma noBr_processed n : noBr (separateParagraphs (replaceBr n)) = true.
Proof.
  induction n as [d|d|tag attrs kids IH] using node_induction;
    try reflexivity.
  rewrite replaceBr_element. destruct (strEqb tag (str "br")) eqn:E;
    [reflexivity|].
  rewrite separateParagraphs_element. cbn [noBr hasTag]. rewrite E.
  apply noBr_siblings. rewrite map_map. apply forallb_forall.
  intros x Hx. apply in_map_iff in Hx as (k & <- & Hk).
  rewrite Forall_forall in IH. now apply IH.
Qed.

Lemma processLineBreaks_noBr element :
  forallb noBr (processLineBreaks element) = true.
Proof.
  apply noBr_siblings. rewrite map_map. apply forallb_forall.
  intros x Hx. apply in_map_iff in Hx as (k & <- & _). apply noBr_processed.
Qed.

Lemma trim_nil_blank s : trim s = [] -> blank s = true.
Proof.
  intros E. destruct (blank s) eqn:B; [reflexivity|].
  now apply trim_nonblank in B.
Qed.

(** The second alternative of the test never holds: [trim] removes the
    non-breaking space too. *)
Lemma emptyContent_blank n : emptyContent n = blank (nodeText n).
Proof.
  unfold emptyContent. destruct (blank (nodeText n)) eqn:B.
  - now rewrite (trim_blank _ B).
  - pose proof (trim_nonblank _ B) as N.
    destruct (trim_tight (nodeText n)) as [T _].
    destruct (trim (nodeText n)) as [|c [|d t]]; [congruence| |].
    + simpl in *. destruct (N.eqb c NBSP) eqn:E; [|reflexivity].
      apply N.eqb_eq in E. subst c. discriminate.
    + simpl. now rewrite andb_false_r.
Qed.

Lemma blank_flat_map (f : node -> jsstring) l :
  blank (flat_map f l) = forallb (fun k => blank (f k)) l.
Proof.
  induction l as [|k l IH]; [reflexivity|]. simpl.
  now rewrite blank_app, IH.
Qed.

Lemma keepMap_cons keep f k l :
  keepMap keep f (k :: l) =
  if keep k then f k :: keepMap keep f l else keepMap keep f l.
Proof. reflexivity. Qed.

Lemma pruneNode_element tag attrs kids :
  pruneNode (Element tag attrs kids) =
  Element tag attrs (keepMap keptParagraph pruneNode kids).
Proof. reflexivity. Qed.

Lemma keptParagraph_false k :
  keptParagraph k = false -> blank (nodeText k) = true.
Proof.
  unfold keptParagraph. rewrite emptyContent_blank.
  destruct (hasTag "p" k), (blank (nodeText k)); simpl; congruence.
Qed.

Lemma pruned_blank_siblings l :
  Forall (fun n => blank (nodeText (pruneNode n)) = blank (nodeText n)) l ->
  blank (flat_map nodeText (keepMap keptParagraph pruneNode l))
  = blank (flat_map nodeText l).
Proof.
  induction 1 as [|k l Hk _ IH]; [reflexivity|].
  rewrite keepMap_cons. cbn [flat_map]. rewrite blank_app.
  destruct (keptParagraph k) eqn:K.
  - cbn [flat_map]. now rewrite blank_app, Hk, IH.
  - now rewrite (keptParagraph_false _ K), IH.
Qed.

(** Detaching blank paragraphs leaves blank text blank and other text not
    blank. *)
Lemma pruneNode_blank n : blank (nodeText (pruneNode n)) = blank (nodeText n).
Proof.
  induction n as [d|d|tag attrs kids IH] using node_induction;
    try reflexivity.
  rewrite pruneNode_element. cbn [nodeText]. now apply pruned_blank_siblings.
Qed.

Lemma pruned_siblings l :
  Forall (fun n => keptParagraph n = true ->
                   noEmptyParagraph (pruneNode n) = true) l ->
  forallb noEmptyParagraph (keepMap keptParagraph pruneNode l) = true.
Proof.
  induction 1 as [|k l Hk _ IH]; [reflexivity|].
  rewrite keepMap_cons. destruct (keptParagraph k) eqn:K; [|exact IH].
  cbn [forallb]. now rewrite (Hk eq_refl), IH.
Qed.

Lemma pruneNode_noEmptyParagraph n :
  keptParagraph n = true -> noEmptyParagraph (pruneNode n) = true.
Proof.
  induction n as [d|d|tag attrs kids IH] using node_induction;
    try reflexivity.
  intros K. rewrite pruneNode_element. cbn [noEmptyParagraph].
  rewrite (pruned_siblings _ IH), andb_true_r.
  unfold keptParagraph in K. rewrite emptyContent_blank in *.
  rewrite <- pruneNode_element, pruneNode_blank. exact K.
Qed.

Lemma removeEmptyParagraphs_spec element :
  forallb noEmptyParagraph (removeEmptyParagraphs element) = true.
Proof.
  apply pruned_siblings, Forall_forall. intros n _.
  apply pruneNode_noEmptyParagraph.
Qed.

Lemma htmlToText_string (parseFragment : jsstring -> list node) c s :
  htmlToText parseFragment (String (c :: s)) =
  cleanupText
    (textContent (removeEmptyParagraphs (processLineBreaks (parseFragment (c :: s))))).
Proof.
  unfold htmlToText. cbn [falsy]. unfold innerText. now rewrite orElse_same.
Qed.

(** * Cleaning up text that is already clean *)

Lemma endsWithSpace_app a b : b <> [] -> endsWithSpace (a ++ b) = endsWithSpace b.
Proof.
  intros H. unfold endsWithSpace. rewrite rev_app_distr.
  destruct (rev b) as [|c r] eqn:E; [|reflexivity].
  apply (f_equal (@rev char)) in E. rewrite rev_involutive in E. now subst b.
Qed.

Lemma join_cons sep x y l : join sep (x :: y :: l) = x ++ sep ++ join sep (y :: l).
Proof. reflexivity. Qed.

Lemma join_lines_shape lines :
  lines <> [] -> Forall cleanLine lines ->
  join [LF] lines <> [] /\ tight (join [LF] lines).
Proof.
  intros N F. induction F as [|l ls (Hl & [Hs He] & _) F IH]; [congruence|].
  destruct ls as [|m ls]; [simpl; repeat split; assumption|].
  destruct IH as (Hj & _ & Hje); [discriminate|].
  rewrite join_cons. split; [destruct l; [congruence | discriminate]|].
  split.
  - destruct l; [congruence | exact Hs].
  - rewrite endsWithSpace_app by discriminate.
    change ([LF] ++ join [LF] (m :: ls)) with ([LF] ++ join [LF] (m :: ls)).
    now rewrite endsWithSpace_app.
Qed.

Lemma hasNewlineRun_cons c s :
  hasNewlineRun (c :: s) =
  (isNl c && match s with d :: _ => isNl d | [] => false end) || hasNewlineRun s.
Proof. reflexivity. Qed.

Lemma hasNewlineRun_line l t :
  Forall (fun c => isNl c = false) l -> hasNewlineRun (l ++ t) = hasNewlineRun t.
Proof.
  induction 1 as [|c l Hc _ IH]; [reflexivity|].
  simpl app. rewrite hasNewlineRun_cons, Hc, IH. reflexivity.
Qed.

Lemma join_lines_no_run lines :
  Forall cleanLine lines -> hasNewlineRun (join [LF] lines) = false.
Proof.
  induction 1 as [|l ls (Hl & _ & Hn) F IH]; [reflexivity|].
  destruct ls as [|m ls].
  - simpl. rewrite <- (app_nil_r l). now rewrite hasNewlineRun_line.
  - rewrite join_cons, hasNewlineRun_line by exact Hn.
    change ([LF] ++ ?x) with (LF :: x).
    rewrite hasNewlineRun_cons, IH, orb_false_r.
    inversion F as [|? ? (Hm & _ & Hmn) _]; subst.
    destruct m as [|d m]; [congruence|].
    inversion Hmn as [|? ? Hd _]; subst.
    destruct ls; simpl; now rewrite Hd.
Qed.

Lemma noMatch_newlineRun s :
  hasNewlineRun s = false -> noMatch newlineRun s = true.
Proof.
  induction s as [|c s IH]; [reflexivity|]. intros H.
  rewrite hasNewlineRun_cons in H. apply orb_false_iff in H as [H1 H2].
  rewrite noMatch_cons, matchHere_newlineRun.
  destruct s as [|d t]; [reflexivity|].
  replace (isNl c && isNl d) with false; auto.
Qed.

Lemma noMatch_nbsp s :
  Forall (fun c => isNbsp c = false) s -> noMatch nbspPattern s = true.
Proof.
  induction 1 as [|c s Hc _ IH]; [reflexivity|].
  rewrite noMatch_cons. unfold nbspPattern. rewrite matchHere_one, Hc.
  exact IH.
Qed.

Lemma Forall_join (P : char -> Prop) sep lines :
  Forall P sep -> Forall (Forall P) lines -> Forall P (join sep lines).
Proof.
  intros Hs. induction 1 as [|l ls Hl _ IH]; [constructor|].
  destruct ls as [|m ls]; [exact Hl|]. rewrite join_cons.
  apply Forall_app; split; [exact Hl|]. apply Forall_app; split; assumption.
Qed.

(** Lines as [textToCardHTMLs] keeps them, joined by newlines, pass
    through [cleanupText] unchanged when they hold no non-breaking
    space. *)
Lemma cleanupText_lines lines :
  Forall cleanLine lines ->
  Forall (Forall (fun c => isNbsp c = false)) lines ->
  cleanupText (join [LF] lines) = join [LF] lines.
Proof.
  intros C B. unfold cleanupText.
  rewrite (replaceAll_noMatch nbspPattern)
    by (apply noMatch_nbsp, Forall_join; [repeat constructor | exact B]).
  rewrite (replaceAll_noMatch newlineRun)
    by (apply noMatch_newlineRun, join_lines_no_run, C).
  destruct lines as [|l ls]; [reflexivity|].
  apply trim_of_tight. now apply join_lines_shape.
Qed.

(** * Paragraphs of one line *)

Lemma plainLine_clean l :
  plainLine l = true -> cleanLine l /\ Forall (fun c => isNbsp c = false) l.
Proof.
  unfold plainLine. intros H.
  apply andb_true_iff in H as [H H4]. apply andb_true_iff in H as [H H3].
  apply andb_true_iff in H as [H1 H2].
  apply negb_true_iff in H2, H3. rewrite forallb_forall in H4.
  assert (F : forall c, In c l -> isNl c = false /\ isNbsp c = false).
  { intros c Hc. specialize (H4 c Hc). apply negb_true_iff in H4.
    now apply orb_false_iff in H4. }
  repeat split; auto.
  - now apply nonEmpty_true.
  - apply Forall_forall. intros c Hc. now apply F.
  - apply Forall_forall. intros c Hc. now apply F.
Qed.

Lemma cleanLine_nonblank l : cleanLine l -> blank l = false.
Proof.
  intros (N & [S _] & _). destruct l as [|c l]; [congruence|].
  now apply blank_cons_false.
Qed.

Lemma paragraphOf_replaced ps :
  map separateParagraphs (map replaceBr (map paragraphOf ps)) = map paragraphOf ps.
Proof. induction ps as [|[a l] ps IH]; [reflexivity|]. simpl. now rewrite IH. Qed.

Lemma paragraphOf_separated ps :
  separateSiblings (map paragraphOf ps) = intersperse (Text [LF]) (map paragraphOf ps).
Proof.
  induction ps as [|[a l] ps IH]; [reflexivity|].
  destruct ps as [|[b m] ps]; [reflexivity|].
  cbn [map] in *. rewrite separateSiblings_cons. cbn [intersperse].
  now rewrite IH.
Qed.

Lemma paragraphOf_kept ps :
  Forall cleanLine (map snd ps) ->
  removeEmptyParagraphs (intersperse (Text [LF]) (map paragraphOf ps))
  = intersperse (Text [LF]) (map paragraphOf ps).
Proof.
  unfold removeEmptyParagraphs.
  induction ps as [|[a l] ps IH]; intros F; [reflexivity|].
  inversion F as [|? ? Hl F']; subst.
  assert (K : keptParagraph (paragraphOf (a, l)) = true).
  { unfold keptParagraph. rewrite emptyContent_blank.
    unfold paragraphOf. cbn [nodeText flat_map snd]. rewrite app_nil_r.
    rewrite (cleanLine_nonblank _ Hl). now rewrite andb_false_r. }
  destruct ps as [|[b m] ps].
  - cbn [map intersperse]. rewrite keepMap_cons, K. reflexivity.
  - cbn [map intersperse] in *. rewrite keepMap_cons, K.
    rewrite keepMap_cons. cbn [keptParagraph hasTag andb negb].
    now rewrite (IH F').
Qed.

Lemma paragraphOf_text ps :
  textContent (intersperse (Text [LF]) (map paragraphOf ps)) = join [LF] (map snd ps).
Proof.
  unfold textContent. induction ps as [|[a l] ps IH]; [reflexivity|].
  destruct ps as [|[b m] ps]; [simpl; now rewrite !app_nil_r|].
  cbn [map intersperse flat_map] in *. rewrite IH.
  cbn [snd]. rewrite join_cons. simpl. now rewrite app_nil_r.
Qed.

Lemma htmlToText_paragraphs parseFragment html ps :
  html <> [] -> parseFragment html = map paragraphOf ps ->
  forallb plainLine (map snd ps) = true ->
  htmlToText parseFragment (String html) = join [LF] (map snd ps).
Proof.
  intros N E P. destruct html as [|c s]; [congruence|].
  rewrite htmlToText_string, E. unfold processLineBreaks.
  rewrite paragraphOf_replaced, paragraphOf_separated.
  rewrite forallb_forall in P.
  assert (C : Forall cleanLine (map snd ps))
    by (apply Forall_forall; intros l Hl; now apply plainLine_clean, P).
  rewrite (paragraphOf_kept _ C), paragraphOf_text.
  apply cleanupText_lines; [exact C|].
  apply Forall_forall; intros l Hl; now apply plainLine_clean, P.
Qed.

(** * Parsing the fragment of a card *)

Lemma normalizeNewlines_plain s :
  Forall (fun c => N.eqb c CR = false) s -> normalizeNewlines s = s.
Proof.
  induction 1 as [|c s Hc _ IH]; [reflexivity|].
  simpl. now rewrite Hc, IH.
Qed.

Lemma tokenize_cons st c s :
  tokenize st (c :: s) = snd (step st c) ++ tokenize (fst (step st c)) s.
Proof. simpl. now destruct (step st c). Qed.

Lemma tokenize_text line rest :
  Forall (fun c => N.eqb c AMP = false /\ N.eqb c LT = false) line ->
  tokenize Data (line ++ rest) = map Char line ++ tokenize Data rest.
Proof.
  induction 1 as [|c l [Ha Hl] _ IH]; [reflexivity|].
  simpl app. rewrite tokenize_cons. cbn [step]. unfold dataStep.
  rewrite Ha, Hl. cbn [fst snd map app]. now rewrite IH.
Qed.

Lemma tokenize_paragraphOpen rest :
  tokenize Data (paragraphOpen ++ rest)
  = StartTag (str "p") [(str "style", str "text-align:center;")]
    :: tokenize Data rest.
Proof. reflexivity. Qed.

Lemma tokenize_lineBreak rest :
  tokenize Data (lineBreak ++ rest) = StartTag (str "br") [] :: tokenize Data rest.
Proof. reflexivity. Qed.

Lemma tokenize_paragraphClose :
  tokenize Data paragraphClose = [EndTag (str "p")].
Proof. reflexivity. Qed.

Lemma lineTokens_cons l m ls :
  lineTokens (l :: m :: ls)
  = map Char l ++ StartTag (str "br") [] :: lineTokens (m :: ls).
Proof. reflexivity. Qed.

Lemma tokenize_lines rest lines :
  Forall (Forall (fun c => N.eqb c AMP = false /\ N.eqb c LT = false)) lines ->
  tokenize Data (join lineBreak lines ++ rest)
  = lineTokens lines ++ tokenize Data rest.
Proof.
  induction 1 as [|l ls Hl _ IH]; [reflexivity|].
  destruct ls as [|m ls]; [now apply tokenize_text|].
  rewrite join_cons, lineTokens_cons, <- !app_assoc.
  rewrite (tokenize_text _ _ Hl), tokenize_lineBreak.
  f_equal. rewrite <- app_comm_cons. f_equal. exact IH.
Qed.

Lemma treeStep_char tag attrs kids fs root c :
  N.eqb c NUL = false ->
  treeStep (mkFrame tag attrs kids :: fs, root) (Char c)
  = (mkFrame tag attrs (appendChar c kids) :: fs, root).
Proof. intros H. cbn [treeStep]. now rewrite H. Qed.

Lemma build_more_text tag attrs fs root toks l : forall d kids,
  Forall (fun c => N.eqb c NUL = false) l ->
  fold_left treeStep (map Char l ++ toks)
            (mkFrame tag attrs (Text d :: kids) :: fs, root)
  = fold_left treeStep toks
              (mkFrame tag attrs (Text (d ++ l) :: kids) :: fs, root).
Proof.
  induction l as [|c l IH]; intros d kids F.
  - simpl. now rewrite app_nil_r.
  - inversion F as [|? ? Hc F']; subst. cbn [map app fold_left].
    rewrite (treeStep_char _ _ _ _ _ _ Hc). cbn [appendChar].
    rewrite (IH _ _ F'). now rewrite <- app_assoc.
Qed.

Lemma build_text tag attrs fs root toks l kids :
  l <> [] -> headIsText kids = false ->
  Forall (fun c => N.eqb c NUL = false) l ->
  fold_left treeStep (map Char l ++ toks)
            (mkFrame tag attrs kids :: fs, root)
  = fold_left treeStep toks (mkFrame tag attrs (Text l :: kids) :: fs, root).
Proof.
  intros N H F. destruct l as [|c l]; [congruence|].
  inversion F as [|? ? Hc F']; subst. cbn [map app fold_left].
  rewrite (treeStep_char _ _ _ _ _ _ Hc).
  replace (appendChar c kids) with (Text [c] :: kids)
    by (destruct kids as [|[?|?|? ? ?] ?];
        [reflexivity | discriminate H | reflexivity | reflexivity]).
  now rewrite (build_more_text _ _ _ _ _ _ _ _ F').
Qed.

Lemma build_br a kids fs root :
  treeStep (mkFrame (str "p") a kids :: fs, root) (StartTag (str "br") [])
  = (mkFrame (str "p") a (Element (str "br") [] [] :: kids) :: fs, root).
Proof. reflexivity. Qed.

Lemma lineNodes_cons l m ls :
  lineNodes (l :: m :: ls) = Text l :: Element (str "br") [] [] :: lineNodes (m :: ls).
Proof. reflexivity. Qed.

Lemma build_lines a fs root toks lines : forall kids,
  Forall (fun l => l <> [] /\ Forall (fun c => N.eqb c NUL = false) l) lines ->
  headIsText kids = false ->
  fold_left treeStep (lineTokens lines ++ toks)
            (mkFrame (str "p") a kids :: fs, root)
  = fold_left treeStep toks
              (mkFrame (str "p") a (rev (lineNodes lines) ++ kids) :: fs, root).
Proof.
  induction lines as [|l ls IH]; intros kids F H; [reflexivity|].
  inversion F as [|? ? [Hn Hl] F']; subst.
  destruct ls as [|m ls].
  - cbn [lineTokens]. now rewrite build_text.
  - rewrite lineTokens_cons, <- app_assoc, build_text by assumption.
    rewrite <- app_comm_cons. cbn [fold_left]. rewrite build_br.
    rewrite (IH (Element (str "br") [] [] :: Text l :: kids) F' eq_refl).
    rewrite lineNodes_cons. cbn [rev]. now rewrite <- !app_assoc.
Qed.

Lemma Forall_weaken (P Q : char -> Prop) s :
  (forall c, P c -> Q c) -> Forall P s -> Forall Q s.
Proof. intros H F. induction F; constructor; auto. Qed.

Lemma literal_join lines (P : char -> Prop) :
  (forall c, literal c -> P c) -> P LT -> P (98%N) -> P (114%N) -> P GT ->
  Forall (fun l => l <> [] /\ Forall literal l) lines ->
  Forall P (join lineBreak lines).
Proof.
  intros HP H1 H2 H3 H4 F. apply Forall_join; [repeat constructor; assumption|].
  apply Forall_forall. intros l Hl. rewrite Forall_forall in F.
  destruct (F l Hl) as [_ L]. now apply (Forall_weaken literal).
Qed.

(** The parser reads the fragment of a card as one paragraph element that
    holds the lines, with a [br] element between them. *)
Lemma parseHTML_card lines :
  Forall (fun l => l <> [] /\ Forall literal l) lines ->
  parseHTML (paragraphOpen ++ join lineBreak lines ++ paragraphClose)
  = [cardParagraph (lineNodes lines)].
Proof.
  intros F. unfold parseHTML.
  rewrite normalizeNewlines_plain.
  - rewrite tokenize_paragraphOpen, tokenize_lines, tokenize_paragraphClose.
    + unfold buildTree. cbn [fold_left].
      change (treeStep ([], []) (StartTag (str "p") ?a))
        with ([mkFrame (str "p") a []], @nil node).
      rewrite build_lines; [| |reflexivity].
      * rewrite app_nil_r. cbn. unfold closeFrame, addKids. cbn.
        now rewrite rev_involutive.
      * apply Forall_forall. intros l Hl. rewrite Forall_forall in F.
        destruct (F l Hl) as [N L]. split; [exact N|].
        apply (Forall_weaken literal); [|exact L]. now intros c (_ & _ & _ & H).
    + apply Forall_forall. intros l Hl. rewrite Forall_forall in F.
      destruct (F l Hl) as [N L].
      apply (Forall_weaken literal); [|exact L]. now intros c (H1 & H2 & _).
  - apply Forall_app; split; [repeat constructor|].
    apply Forall_app; split; [|repeat constructor].
    apply literal_join; try reflexivity; [|exact F].
    now intros c (_ & _ & H & _).
Qed.

(** * The paragraph of a card in the tree *)

Lemma lineNodes_replaced lines : map replaceBr (lineNodes lines) = lineTexts lines.
Proof.
  unfold lineNodes, lineTexts. induction lines as [|l ls IH]; [reflexivity|].
  destruct ls as [|m ls]; [reflexivity|].
  cbn [map intersperse] in *. now rewrite IH.
Qed.

Lemma lineTexts_isText lines : forallb isText (lineTexts lines) = true.
Proof.
  unfold lineTexts. induction lines as [|l ls IH]; [reflexivity|].
  destruct ls as [|m ls]; [reflexivity|]. cbn [map intersperse forallb] in *.
  exact IH.
Qed.

Lemma texts_untouched l :
  forallb isText l = true ->
  map separateParagraphs l = l /\ separateSiblings l = l
  /\ keepMap keptParagraph pruneNode l = l.
Proof.
  induction l as [|n l IH]; [repeat split|]. intros H.
  cbn [forallb] in H. apply andb_true_iff in H as [Hn Hl].
  destruct n as [d| |]; try discriminate.
  destruct (IH Hl) as (E1 & E2 & E3). repeat split.
  - cbn [map separateParagraphs]. now rewrite E1.
  - destruct l as [|m l]; [reflexivity|].
    rewrite separateSiblings_cons. cbn [hasTag]. now rewrite E2.
  - rewrite keepMap_cons. cbn [keptParagraph hasTag andb negb pruneNode].
    now rewrite E3.
Qed.

Lemma lineTexts_text lines : textContent (lineTexts lines) = join [LF] lines.
Proof.
  unfold textContent, lineTexts. induction lines as [|l ls IH]; [reflexivity|].
  destruct ls as [|m ls]; [simpl; now rewrite app_nil_r|].
  cbn [map intersperse flat_map nodeText] in *. rewrite IH.
  now rewrite join_cons.
Qed.

Lemma cardParagraph_processed lines :
  processLineBreaks [cardParagraph (lineNodes lines)]
  = [cardParagraph (lineTexts lines)].
Proof.
  unfold processLineBreaks, cardParagraph. cbn [map].
  rewrite replaceBr_element.
  change (strEqb (str "p") (str "br")) with false. cbv iota.
  rewrite separateParagraphs_element, lineNodes_replaced.
  destruct (texts_untouched _ (lineTexts_isText lines)) as (E1 & E2 & _).
  now rewrite E1, E2.
Qed.

Lemma cardParagraph_kept lines :
  blank (join [LF] lines) = false ->
  removeEmptyParagraphs [cardParagraph (lineTexts lines)]
  = [cardParagraph (lineTexts lines)].
Proof.
  intros B. unfold removeEmptyParagraphs. rewrite keepMap_cons.
  unfold keptParagraph at 1. rewrite emptyContent_blank.
  unfold cardParagraph at 2. cbn [nodeText].
  fold (textContent (lineTexts lines)). rewrite lineTexts_text, B.
  rewrite andb_false_r. cbn [negb keepMap].
  unfold cardParagraph. rewrite pruneNode_element.
  destruct (texts_untouched _ (lineTexts_isText lines)) as (_ & _ & E3).
  now rewrite E3.
Qed.

Lemma cardParagraph_text lines :
  textContent [cardParagraph (lineTexts lines)] = join [LF] lines.
Proof.
  unfold textContent, cardParagraph. cbn [flat_map nodeText].
  rewrite app_nil_r. apply lineTexts_text.
Qed.

(** [htmlToText] gives back the lines of the fragment of a card, joined by
    newlines. *)
Lemma htmlToText_card lines :
  lines <> [] -> Forall cleanLine lines ->
  Forall (Forall literal) lines ->
  Forall (Forall (fun c => isNbsp c = false)) lines ->
  htmlToText parseHTML
             (String (paragraphOpen ++ join lineBreak lines ++ paragraphClose))
  = join [LF] lines.
Proof.
  intros N C L B.
  change (paragraphOpen ++ join lineBreak lines ++ paragraphClose)
    with (LT :: tl paragraphOpen ++ join lineBreak lines ++ paragraphClose).
  rewrite htmlToText_string.
  change (LT :: tl paragraphOpen ++ join lineBreak lines ++ paragraphClose)
    with (paragraphOpen ++ join lineBreak lines ++ paragraphClose).
  rewrite parseHTML_card.
  - rewrite cardParagraph_processed, cardParagraph_kept, cardParagraph_text.
    + now apply cleanupText_lines.
    + destruct (join_lines_shape lines N C) as (Hn & [Hs _]).
      destruct (join [LF] lines) as [|c s]; [congruence|].
      now apply blank_cons_false.
  - apply Forall_forall. intros l Hl. rewrite Forall_forall in C, L.
    split; [apply (C l Hl) | apply (L l Hl)].
Qed.

(** * Lines of a trimmed text *)

Lemma textLines_split s : forall acc,
  textLines acc s = splitGo lineSeparator 0 acc s.
Proof.
  induction s as [|c s IH]; intros acc; [reflexivity|].
  rewrite lines_cons. cbn [textLines]. now rewrite !IH.
Qed.

Lemma trimmedLines_cleanedLines p : trimmedLines p = cleanedLines p.
Proof. unfold trimmedLines, cleanedLines, split. now rewrite textLines_split. Qed.

Lemma cleanedLines_space_cons c s :
  isSpace c = true -> cleanedLines (c :: s) = cleanedLines s.
Proof.
  intros H. unfold cleanedLines, split. rewrite lines_cons.
  destruct (isNl c); [reflexivity|].
  rewrite splitGo_acc. apply kept_prefixFirst. unfold blank. simpl.
  now rewrite H.
Qed.

Lemma cleanedLines_space_end c s : forall acc,
  isSpace c = true ->
  kept (splitGo lineSeparator 0 acc (s ++ [c]))
  = kept (splitGo lineSeparator 0 acc s).
Proof.
  induction s as [|d s IH]; intros acc H.
  - simpl app. rewrite lines_cons. destruct (isNl c).
    + reflexivity.
    + unfold kept. simpl. rewrite (trim_blank_r (rev acc) [c]); [reflexivity|].
      unfold blank. simpl. now rewrite H.
  - simpl app. rewrite !lines_cons. destruct (isNl d).
    + rewrite (kept_cons _ (splitGo lineSeparator 0 [] (s ++ [c]))).
      rewrite (kept_cons _ (splitGo lineSeparator 0 [] s)).
      now rewrite IH.
    + now apply IH.
Qed.

Lemma cleanedLines_blank_l a s : blank a = true -> cleanedLines (a ++ s) = cleanedLines s.
Proof.
  induction a as [|c a IH]; intros H; [reflexivity|].
  unfold blank in H. simpl in H. apply andb_true_iff in H as [Hc Ha].
  simpl app. rewrite cleanedLines_space_cons by exact Hc. now apply IH.
Qed.

Lemma cleanedLines_blank_r b : forall s,
  blank b = true -> cleanedLines (s ++ b) = cleanedLines s.
Proof.
  induction b as [|c b IH]; intros s H; [now rewrite app_nil_r|].
  unfold blank in H. simpl in H. apply andb_true_iff in H as [Hc Hb].
  replace (s ++ c :: b) with ((s ++ [c]) ++ b)
    by (now rewrite <- app_assoc).
  rewrite (IH _ Hb). now apply cleanedLines_space_end.
Qed.

(** Trimming a text does not change its trimmed lines. *)
Lemma cleanedLines_trim p : cleanedLines (trim p) = cleanedLines p.
Proof.
  destruct (trim_decompose p) as (a & b & E & Ha & Hb).
  rewrite E at 2. rewrite cleanedLines_blank_l by exact Ha.
  now rewrite cleanedLines_blank_r.
Qed.

Lemma cleanedLines_incl section l c :
  In l (cleanedLines section) -> In c l -> In c section.
Proof.
  intros Hl Hc. unfold cleanedLines in Hl. apply filter_In in Hl as [Hl _].
  apply in_map_iff in Hl as (x & <- & Hx). apply trim_incl in Hc.
  pose proof (splitGo_incl lineSeparator (fun d => In d section) section 0 [])
    as F.
  assert (A : Forall (fun d => In d section) section)
    by (apply Forall_forall; auto).
  specialize (F (Forall_nil _) A). rewrite Forall_forall in F.
  specialize (F x Hx). rewrite Forall_forall in F. now apply F.
Qed.

Lemma pruned_unchanged l :
  Forall (fun n => noEmptyParagraph n = true -> pruneNode n = n) l ->
  forallb noEmptyParagraph l = true ->
  keepMap keptParagraph pruneNode l = l.
Proof.
  induction 1 as [|k l Hk _ IH]; [reflexivity|]. intros H.
  cbn [forallb] in H. apply andb_true_iff in H as [H1 H2].
  rewrite keepMap_cons, (Hk H1), (IH H2).
  replace (keptParagraph k) with true; [reflexivity|].
  destruct k as [d|d|tag attrs kids]; try reflexivity.
  cbn [noEmptyParagraph] in H1. apply andb_true_iff in H1 as [H1 _].
  symmetry. exact H1.
Qed.

Lemma pruneNode_unchanged n : noEmptyParagraph n = true -> pruneNode n = n.
Proof.
  induction n as [d|d|tag attrs kids IH] using node_induction;
    try reflexivity.
  intros H. cbn [noEmptyParagraph] in H. apply andb_true_iff in H as [_ H].
  rewrite pruneNode_element. now rewrite (pruned_unchanged _ IH H).
Qed.

Lemma paragraphsText_nonnil p rest : p <> [] -> paragraphsText p rest <> [].
Proof.
  destruct rest as [|[sep q] rest]; simpl; [auto|].
  destruct p; [congruence | discriminate].
Qed.

(** * The claims *)

(** C1, as amended. For a paragraph [p], a text that holds no paragraph
    separator, without HTML metacharacter and whose trimmed lines hold no
    non-breaking space, carriage return or NUL, [htmlToText] applied to the
    first fragment of [textToCardHTMLs(p)] returns [p] line for line, each
    line trimmed and the blank lines left out. *)
Theorem htmlToText_textToCardHTMLs_roundtrip (p : jsstring) :
  noMatch paragraphSeparator p = true ->
  existsb isMeta p = false ->
  forallb (fun l => negb (existsb altered l)) (trimmedLines p) = true ->
  htmlToText parseHTML (firstFragment (textToCardHTMLs (String p)))
  = normalizedText p.
Proof.
  intros N M A. unfold normalizedText.
  rewrite trimmedLines_cleanedLines in *.
  destruct p as [|c s]; [reflexivity|].
  rewrite textToCardHTMLs_string. unfold sections.
  rewrite (split_noMatch _ _ N). cbn [map filter].
  rewrite <- (cleanedLines_trim (c :: s)).
  destruct (trim (c :: s)) as [|d t] eqn:T; [reflexivity|].
  cbn [nonEmpty map firstFragment]. unfold cardHTML.
  assert (I : forall l x, In l (cleanedLines (d :: t)) -> In x l ->
                          isMeta x = false /\ altered x = false).
  { intros l x Hl Hx. rewrite <- T, cleanedLines_trim in Hl. split.
    - pose proof (cleanedLines_incl _ _ _ Hl Hx) as Hp.
      destruct (isMeta x) eqn:E; [|reflexivity].
      assert (X : existsb isMeta (c :: s) = true)
        by (apply existsb_exists; eauto).
      congruence.
    - rewrite forallb_forall in A. specialize (A l Hl).
      apply negb_true_iff in A. destruct (altered x) eqn:E; [|reflexivity].
      assert (X : existsb altered l = true) by (apply existsb_exists; eauto).
      congruence. }
  apply htmlToText_card.
  - apply cleanedLines_nonnil; [discriminate|]. rewrite <- T. apply trim_tight.
  - apply cleanedLines_clean.
  - apply Forall_forall. intros l Hl. apply Forall_forall. intros x Hx.
    destruct (I l x Hl Hx) as [Hm Ha]. unfold isMeta, altered in *.
    apply orb_false_iff in Hm as [Hm H3]. apply orb_false_iff in Hm as [H1 H2].
    apply orb_false_iff in Ha as [Ha H5]. apply orb_false_iff in Ha as [H4 H6].
    repeat split; assumption.
  - apply Forall_forall. intros l Hl. apply Forall_forall. intros x Hx.
    destruct (I l x Hl Hx) as [_ Ha]. unfold altered in Ha.
    apply orb_false_iff in Ha as [Ha _]. now apply orb_false_iff in Ha as [Ha _].
Qed.

Lemma htmlToText_textToCardHTMLs_roundtrip_witness :
  htmlToText parseHTML
    (firstFragment
       (textToCardHTMLs
          (String (str "  Idea one " ++ [LF] ++ str " and more" ++ [LF]))))
  = str "Idea one" ++ [LF] ++ str "and more".
Proof.
  apply (htmlToText_textToCardHTMLs_roundtrip
           (str "  Idea one " ++ [LF] ++ str " and more" ++ [LF]));
    reflexivity.
Defined.

(** C1, as stated, fails: a non-breaking space inside a line comes back as
    an ordinary space. *)
Lemma roundtrip_loses_nbsp :
  noMatch paragraphSeparator nbspParagraph = true
  /\ existsb isMeta nbspParagraph = false
  /\ htmlToText parseHTML (firstFragment (textToCardHTMLs (String nbspParagraph)))
     = str "a b"
  /\ normalizedText nbspParagraph = nbspParagraph
  /\ htmlToText parseHTML (firstFragment (textToCardHTMLs (String nbspParagraph)))
     <> normalizedText nbspParagraph.
Proof. repeat split. discriminate. Qed.

(** C2. Whatever the input and whatever tree the parser builds, the string
    [htmlToText] returns holds no two consecutive newline characters and
    no non-breaking space, and neither starts nor ends with white space. *)
Theorem htmlToText_output_invariant
        (parseFragment : jsstring -> list node) (html : value) :
  hasNewlineRun (htmlToText parseFragment html) = false
  /\ existsb isNbsp (htmlToText parseFragment html) = false
  /\ startsWithSpace (htmlToText parseFragment html) = false
  /\ endsWithSpace (htmlToText parseFragment html) = false.
Proof.
  unfold htmlToText. destruct (falsy html); [repeat split|].
  destruct html; [repeat split | repeat split | apply cleanupText_invariant].
Qed.

(** C3. No fragment returned by [textToCardHTMLs] is the empty string or a
    string of white space only. *)
Theorem textToCardHTMLs_no_blank_fragment (text : value) :
  Forall (fun f => f <> [] /\ blank f = false)
         (fragments (textToCardHTMLs text)).
Proof.
  destruct text as [| |[|c s]]; try constructor.
  rewrite textToCardHTMLs_string. simpl fragments.
  apply Forall_forall. intros f Hf. apply in_map_iff in Hf as (sec & <- & _).
  unfold cardHTML. split; [discriminate | reflexivity].
Qed.

Lemma Forall2_map_left (g : jsstring -> jsstring)
      (P : jsstring -> jsstring -> Prop) l :
  Forall (fun x => P (g x) x) l -> Forall2 P (map g l) l.
Proof. induction 1; constructor; assumption. Qed.

Lemma cardHTML_centeredParagraph section :
  cardHTML section = centeredParagraph (trimmedLines section).
Proof.
  rewrite trimmedLines_cleanedLines.
  unfold cardHTML, centeredParagraph, paragraphOpen, paragraphClose, lineBreak.
  now rewrite <- !app_assoc.
Qed.

(** C4. Every fragment is the opening tag of a paragraph whose style
    attribute centers the text, then the kept lines of its paragraph (the
    lines of that paragraph, each trimmed, the blank ones left out: at least
    one line, each not empty and without newline) joined by [<br>], then the
    closing tag.  This holds fragment by fragment against the sections of
    any text, and against the paragraphs of a text made of paragraphs
    separated by blank lines; the text [A], blank line, [B], newline, [C]
    gives the two fragments of [A] and of [B<br>C]. *)
Theorem textToCardHTMLs_fragment_format :
  (forall text : jsstring,
     Forall2 (fun f section =>
                f = centeredParagraph (trimmedLines section)
                /\ trimmedLines section <> []
                /\ Forall cleanLine (trimmedLines section))
             (fragments (textToCardHTMLs (String text))) (sections text))
  /\ (forall (p : jsstring) (rest : list (jsstring * jsstring)),
        isParagraph p = true ->
        Forall (fun sq => blankLineRun (fst sq) = true
                          /\ isParagraph (snd sq) = true) rest ->
        fragments (textToCardHTMLs (String (paragraphsText p rest)))
        = map (fun q => centeredParagraph (trimmedLines q)) (p :: map snd rest))
  /\ (forall text : value,
        Forall (fun f => exists lines,
                    lines <> [] /\ Forall cleanLine lines
                    /\ f = str "<p style=" ++ [QUOT] ++ str "text-align:center;"
                           ++ [QUOT] ++ str ">" ++ join (str "<br>") lines
                           ++ str "</p>")
               (fragments (textToCardHTMLs text)))
  /\ textToCardHTMLs (String (str "A" ++ [LF; LF] ++ str "B" ++ [LF] ++ str "C"))
     = CardArray
         [paragraphOpen ++ str "A" ++ paragraphClose;
          paragraphOpen ++ str "B" ++ str "<br>" ++ str "C" ++ paragraphClose].
Proof.
  assert (G : forall text : jsstring,
             Forall2 (fun f section =>
                        f = centeredParagraph (trimmedLines section)
                        /\ trimmedLines section <> []
                        /\ Forall cleanLine (trimmedLines section))
                     (fragments (textToCardHTMLs (String text))) (sections text)).
  { intros [|c s]; [constructor|].
    rewrite textToCardHTMLs_string. simpl fragments.
    apply Forall2_map_left. apply Forall_forall. intros sec Hs.
    pose proof (sections_tight (c :: s)) as T. rewrite Forall_forall in T.
    destruct (T sec Hs) as [Hn Ht].
    split; [apply cardHTML_centeredParagraph|].
    rewrite trimmedLines_cleanedLines.
    split; [now apply cleanedLines_nonnil | apply cleanedLines_clean]. }
  split; [exact G|]. split; [|split; [|reflexivity]].
  - intros p rest Hp F.
    assert (N : paragraphsText p rest <> []).
    { apply paragraphsText_nonnil. apply andb_true_iff in Hp as [_ T].
      now apply trim_nonEmpty_nonblank. }
    destruct (paragraphsText p rest) as [|c s] eqn:T; [congruence|].
    rewrite textToCardHTMLs_string, <- T. simpl fragments.
    rewrite (sections_paragraphsText rest p Hp F), map_map.
    apply map_ext. intros q. rewrite cardHTML_centeredParagraph.
    now rewrite !trimmedLines_cleanedLines, cleanedLines_trim.
  - intros text.
    assert (E : exists t, fragments (textToCardHTMLs text)
                          = fragments (textToCardHTMLs (String t))).
    { destruct text as [| |t]; [exists []| exists [] | exists t]; reflexivity. }
    destruct E as [t ->]. specialize (G t).
    induction G as [|f sec fs secs (-> & Hn & Hc) _ IH]; constructor; [|exact IH].
    exists (trimmedLines sec). repeat split; assumption.
Qed.

Lemma textToCardHTMLs_fragment_format_witness :
  fragments
    (textToCardHTMLs
       (String (paragraphsText (str " A ")
                  [([LF; LF], str "B " ++ [LF] ++ str " C");
                   ([LF; SPACE; LF], str "D")])))
  = [centeredParagraph [str "A"]; centeredParagraph [str "B"; str "C"];
     centeredParagraph [str "D"]].
Proof.
  refine (eq_trans
            (proj1 (proj2 textToCardHTMLs_fragment_format)
                   (str " A ")
                   [([LF; LF], str "B " ++ [LF] ++ str " C");
                    ([LF; SPACE; LF], str "D")] _ _) _).
  - reflexivity.
  - repeat constructor.
  - reflexivity.
Defined.

(** C5. [processLineBreaks] leaves no [br] element, and the text of the
    tree it leaves reads each [br] as one newline at its place and has one
    newline after each [p] that has a next sibling; paragraphs of one plain
    line each come out as these lines separated by exactly one newline;
    [<p>Hello</p><p>World</p>] gives [Hello], newline, [World], and
    [Line1<br>Line2] gives [Line1], newline, [Line2]. *)
Theorem htmlToText_line_breaks
        (parseFragment : jsstring -> list node) (element : list node)
        (html : jsstring) (ps : list (list (jsstring * jsstring) * jsstring)) :
  forallb noBr (processLineBreaks element) = true
  /\ textContent (processLineBreaks element) = textFlow element
  /\ (html <> [] -> parseFragment html = map paragraphOf ps ->
      forallb plainLine (map snd ps) = true ->
      htmlToText parseFragment (String html) = join [LF] (map snd ps))
  /\ htmlToText parseHTML (String (str "<p>Hello</p><p>World</p>"))
     = str "Hello" ++ [LF] ++ str "World"
  /\ htmlToText parseHTML (String (str "Line1<br>Line2"))
     = str "Line1" ++ [LF] ++ str "Line2".
Proof.
  split; [apply processLineBreaks_noBr|].
  split; [apply processLineBreaks_textContent|].
  split; [apply htmlToText_paragraphs|].
  split; reflexivity.
Qed.

Lemma htmlToText_line_breaks_witness :
  htmlToText parseHTML (String (str "<p>One</p><p class=x>Two</p><p>Three</p>"))
  = str "One" ++ [LF] ++ str "Two" ++ [LF] ++ str "Three".
Proof.
  destruct (htmlToText_line_breaks
              parseHTML []
              (str "<p>One</p><p class=x>Two</p><p>Three</p>")
              [([], str "One"); ([(str "class", str "x")], str "Two");
               ([], str "Three")])
    as (_ & _ & H & _).
  apply H; [discriminate | reflexivity | reflexivity].
Defined.

(** C6. [removeEmptyParagraphs] leaves no [p] element whose trimmed text
    is empty or one non-breaking space, and leaves a tree without such an
    element as it is; [htmlToText] prunes after [processLineBreaks] has
    placed its newlines, so that the newline placed after a paragraph that
    is then removed stays; [<p>&nbsp;</p><p>Content</p>] gives
    [Content]. *)
Theorem htmlToText_empty_paragraphs
        (parseFragment : jsstring -> list node) (element : list node)
        (c : char) (s : jsstring) :
  forallb noEmptyParagraph (removeEmptyParagraphs element) = true
  /\ (forallb noEmptyParagraph element = true ->
      removeEmptyParagraphs element = element)
  /\ htmlToText parseFragment (String (c :: s))
     = cleanupText
         (textContent
            (removeEmptyParagraphs (processLineBreaks (parseFragment (c :: s)))))
  /\ htmlToText parseHTML (String (str "X<p> </p>Y")) = str "X" ++ [LF] ++ str "Y"
  /\ cleanupText
       (textContent
          (processLineBreaks (removeEmptyParagraphs (parseHTML (str "X<p> </p>Y")))))
     = str "XY"
  /\ htmlToText parseHTML (String (str "<p>&nbsp;</p><p>Content</p>"))
     = str "Content".
Proof.
  split; [apply removeEmptyParagraphs_spec|].
  split.
  - intros H. apply pruned_unchanged; [|exact H].
    apply Forall_forall. intros n _. apply pruneNode_unchanged.
  - split; [apply htmlToText_string|]. repeat split.
Qed.

Lemma htmlToText_empty_paragraphs_witness :
  removeEmptyParagraphs (parseHTML (str "<p>A<br></p>B<p>C</p>"))
  = parseHTML (str "<p>A<br></p>B<p>C</p>").
Proof.
  destruct (htmlToText_empty_paragraphs
              parseHTML (parseHTML (str "<p>A<br></p>B<p>C</p>")) LT [])
    as (_ & H & _).
  apply H. reflexivity.
Defined.

(** C7. A text made of [n] paragraphs, each free of paragraph separators
    and not empty after trimming, separated by runs of blank lines, gives
    exactly [n] fragments: the fragment of the first paragraph, then that of
    the second, and so on. *)
Theorem textToCardHTMLs_paragraph_count_order
        (p : jsstring) (rest : list (jsstring * jsstring)) :
  isParagraph p = true ->
  Forall (fun sq => blankLineRun (fst sq) = true /\ isParagraph (snd sq) = true)
         rest ->
  textToCardHTMLs (String (paragraphsText p rest))
  = CardArray (map (fun q => cardHTML (trim q)) (p :: map snd rest))
  /\ length (fragments (textToCardHTMLs (String (paragraphsText p rest))))
     = length (p :: map snd rest).
Proof.
  intros Hp F.
  assert (E : textToCardHTMLs (String (paragraphsText p rest))
              = CardArray (map (fun q => cardHTML (trim q)) (p :: map snd rest))).
  { assert (N : paragraphsText p rest <> []).
    { apply paragraphsText_nonnil. apply andb_true_iff in Hp as [_ T].
      now apply trim_nonEmpty_nonblank. }
    destruct (paragraphsText p rest) as [|c s] eqn:T; [congruence|].
    rewrite textToCardHTMLs_string, <- T.
    rewrite (sections_paragraphsText rest p Hp F).
    now rewrite map_map. }
  split; [exact E|]. rewrite E. simpl. now rewrite !length_map.
Qed.

Lemma textToCardHTMLs_paragraph_count_order_witness :
  textToCardHTMLs
    (String (paragraphsText (str "One")
               [([LF; LF], str "Two"); ([LF; SPACE; LF; LF], str "Three")]))
  = CardArray [cardHTML (str "One"); cardHTML (str "Two"); cardHTML (str "Three")].
Proof.
  refine (proj1 (textToCardHTMLs_paragraph_count_order
                   (str "One")
                   [([LF; LF], str "Two"); ([LF; SPACE; LF; LF], str "Three")]
                   _ _)).
  - reflexivity.
  - repeat constructor.
Defined.

(** C8. For the empty string, [null] and [undefined], [htmlToText] returns
    the empty string, whatever the parser. *)
Theorem htmlToText_absent_input (parseFragment : jsstring -> list node) :
  htmlToText parseFragment (String []) = []
  /\ htmlToText parseFragment Null = []
  /\ htmlToText parseFragment Undefined = [].
Proof. repeat split. Qed.

(** C9. For absent or empty input, and for input made of white space and
    blank lines only, [textToCardHTMLs] yields no fragment. *)
Theorem textToCardHTMLs_blank_input (text : value) :
  blankInput text = true -> fragments (textToCardHTMLs text) = [].
Proof.
  destruct text as [| |[|c s]]; try reflexivity.
  intros H. rewrite textToCardHTMLs_string. simpl fragments.
  now rewrite (sections_blank _ H).
Qed.

Lemma textToCardHTMLs_blank_input_witness :
  blankInput (String (str "   " ++ [LF; LF] ++ str "   ")) = true
  /\ fragments (textToCardHTMLs (String (str "   " ++ [LF; LF] ++ str "   "))) = [].
Proof.
  split; [reflexivity|].
  apply (textToCardHTMLs_blank_input (String (str "   " ++ [LF; LF] ++ str "   "))).
  reflexivity.
Defined.

(** C10. For a falsy input ([undefined], [null], the empty string) the
    function returns the string ['']; for a non-empty input all of whose
    paragraphs trim to the empty string, white space only in particular, it
    returns an empty array, which is a value of another kind. *)
Theorem textToCardHTMLs_empty_result_kinds (text : value) (s : jsstring) :
  (falsy text = true -> textToCardHTMLs text = EmptyString)
  /\ (s <> [] ->
      Forall (fun piece => trim piece = []) (split paragraphSeparator s) ->
      textToCardHTMLs (String s) = CardArray [])
  /\ (s <> [] -> blank s = true -> textToCardHTMLs (String s) = CardArray [])
  /\ EmptyString <> CardArray [].
Proof.
  split; [|split; [|split]].
  - unfold textToCardHTMLs. now intros ->.
  - intros Hs F. destruct s as [|c s]; [congruence|].
    rewrite textToCardHTMLs_string. now rewrite (sections_all_empty _ F).
  - intros Hs B. destruct s as [|c s]; [congruence|].
    rewrite textToCardHTMLs_string. now rewrite (sections_blank _ B).
  - discriminate.
Qed.

Lemma textToCardHTMLs_empty_result_kinds_witness :
  textToCardHTMLs Null = EmptyString
  /\ textToCardHTMLs (String (str "  " ++ [LF; LF] ++ str " ")) = CardArray []
  /\ Forall (fun piece => trim piece = [])
            (split paragraphSeparator (str "  " ++ [LF; LF] ++ str " ")).
Proof.
  destruct (textToCardHTMLs_empty_result_kinds
              Null (str "  " ++ [LF; LF] ++ str " ")) as (A & B & C & D).
  assert (F : Forall (fun piece => trim piece = [])
                     (split paragraphSeparator (str "  " ++ [LF; LF] ++ str " "))).
  { vm_compute. repeat constructor. }
  split; [|split].
  - apply A. reflexivity.
  - apply B; [discriminate | exact F].
  - exact F.
Defined.

(** * Further properties of the conversion *)

Lemma cleanupText_idempotent_aux text :
  cleanupText (cleanupText text) = cleanupText text.
Proof.
  destruct (cleanupText_invariant text) as (R & B & S & E).
  set (t := cleanupText text) in *. unfold cleanupText.
  rewrite (replaceAll_noMatch nbspPattern).
  - rewrite (replaceAll_noMatch newlineRun) by now apply noMatch_newlineRun.
    apply trim_of_tight. now split.
  - apply noMatch_nbsp. apply Forall_forall. intros c Hc.
    destruct (isNbsp c) eqn:X; [|reflexivity].
    assert (existsb isNbsp t = true) by (apply existsb_exists; eauto).
    congruence.
Qed.

(** X1. [cleanupText] is idempotent: cleaning a cleaned text changes
    nothing. *)
Theorem cleanupText_idempotent (text : jsstring) :
  cleanupText (cleanupText text) = cleanupText text.
Proof. apply cleanupText_idempotent_aux. Qed.

Lemma visible_app a b : visible (a ++ b) = visible a ++ visible b.
Proof. apply filter_app. Qed.

Lemma visible_blank a : blank a = true -> visible a = [].
Proof.
  induction a as [|c a IH]; [reflexivity|]. intros H.
  unfold blank in H. simpl in H. apply andb_true_iff in H as [Hc Ha].
  simpl. rewrite Hc. now apply IH.
Qed.

Lemma visible_trim s : visible (trim s) = visible s.
Proof.
  destruct (trim_decompose s) as (a & b & E & Ha & Hb).
  rewrite E at 2. rewrite !visible_app, (visible_blank _ Ha), (visible_blank _ Hb).
  now rewrite app_nil_r.
Qed.

Lemma visible_replace_nbsp s :
  visible (replaceAll nbspPattern [SPACE] s) = visible s.
Proof.
  induction s as [|c s IH]; [reflexivity|].
  destruct (isNbsp c) eqn:E.
  - rewrite (replaceAll_match _ _ _ 0)
      by (unfold nbspPattern; rewrite matchHere_one, E; reflexivity).
    simpl skipn. unfold isNbsp in E. apply N.eqb_eq in E. subst c.
    simpl. exact IH.
  - rewrite replaceAll_pass
      by (intros k; unfold nbspPattern; rewrite matchHere_one, E; discriminate).
    simpl. now rewrite IH.
Qed.

Lemma visible_collapse s :
  visible (replaceAll newlineRun [LF] s) = visible s.
Proof.
  remember (length s) as n eqn:Hn. revert s Hn.
  induction n as [n IH] using lt_wf_ind. intros s Hn.
  destruct s as [|c s]; [reflexivity|].
  destruct (matchHere newlineRun (c :: s)) as [[|k]|] eqn:E.
  - rewrite replaceAll_pass by (intros k; rewrite E; discriminate).
    simpl. rewrite (IH (length s)); [reflexivity | subst n; simpl; lia | reflexivity].
  - rewrite (replaceAll_match _ _ _ _ E).
    rewrite matchHere_newlineRun in E. destruct s as [|d t]; [discriminate|].
    destruct (isNl c) eqn:Ec; [|discriminate].
    destruct (isNl d) eqn:Ed; [|discriminate].
    simpl in E. injection E as <-.
    change (skipn (S (S (length (takeWhile isNl t)))) (c :: d :: t))
      with (skipn (length (takeWhile isNl t)) t).
    rewrite skipn_takeWhile, visible_app.
    rewrite (IH (length (dropWhile isNl t))); [| |reflexivity].
    + change (c :: d :: t) with ([c; d] ++ t). rewrite visible_app.
      rewrite <- (takeWhile_dropWhile isNl t) at 2. rewrite visible_app.
      rewrite (visible_blank [c; d]), (visible_blank (takeWhile isNl t)).
      * reflexivity.
      * pose proof (takeWhile_all isNl t) as A. unfold blank.
        rewrite forallb_forall in *. intros x Hx. apply isNl_isSpace. auto.
      * unfold blank. simpl.
        now rewrite (isNl_isSpace _ Ec), (isNl_isSpace _ Ed).
    + subst n. simpl. rewrite <- (takeWhile_dropWhile isNl t) at 2.
      rewrite length_app. lia.
  - rewrite replaceAll_pass by (intros k; rewrite E; discriminate).
    simpl. rewrite (IH (length s)); [reflexivity | subst n; simpl; lia | reflexivity].
Qed.

Lemma visible_cleanupText text : visible (cleanupText text) = visible text.
Proof.
  unfold cleanupText. now rewrite visible_trim, visible_collapse, visible_replace_nbsp.
Qed.

Lemma visible_flat_map (f g : node -> jsstring) l :
  Forall (fun n => visible (f n) = visible (g n)) l ->
  visible (flat_map f l) = visible (flat_map g l).
Proof.
  induction 1 as [|k l Hk _ IH]; [reflexivity|].
  simpl. now rewrite !visible_app, Hk, IH.
Qed.

Lemma visible_pruned_siblings l :
  Forall (fun n => visible (nodeText (pruneNode n)) = visible (nodeText n)) l ->
  visible (flat_map nodeText (keepMap keptParagraph pruneNode l))
  = visible (flat_map nodeText l).
Proof.
  induction 1 as [|k l Hk _ IH]; [reflexivity|].
  rewrite keepMap_cons. cbn [flat_map]. rewrite visible_app.
  destruct (keptParagraph k) eqn:K.
  - cbn [flat_map]. now rewrite visible_app, Hk, IH.
  - now rewrite (visible_blank _ (keptParagraph_false _ K)), IH.
Qed.

Lemma visible_pruneNode n : visible (nodeText (pruneNode n)) = visible (nodeText n).
Proof.
  induction n as [d|d|tag attrs kids IH] using node_induction;
    try reflexivity.
  rewrite pruneNode_element. cbn [nodeText]. now apply visible_pruned_siblings.
Qed.

Lemma visible_removeEmptyParagraphs element :
  visible (textContent (removeEmptyParagraphs element))
  = visible (textContent element).
Proof.
  apply visible_pruned_siblings, Forall_forall. intros n _.
  apply visible_pruneNode.
Qed.

Lemma visible_afterParagraph k l : visible (afterParagraph k l) = [].
Proof.
  destruct l; [reflexivity|]. unfold afterParagraph.
  destruct (hasTag "p" k); reflexivity.
Qed.

Lemma visible_textFlow l :
  Forall (fun n => brVoid n = true -> visible (flowNode n) = visible (nodeText n)) l ->
  forallb brVoid l = true ->
  visible (textFlow l) = visible (flat_map nodeText l).
Proof.
  induction 1 as [|k l Hk _ IH]; [reflexivity|]. intros H.
  cbn [forallb] in H. apply andb_true_iff in H as [H1 H2].
  cbn [textFlow flat_map]. rewrite !visible_app, visible_afterParagraph.
  now rewrite (Hk H1), (IH H2).
Qed.

Lemma visible_flowNode n :
  brVoid n = true -> visible (flowNode n) = visible (nodeText n).
Proof.
  induction n as [d|d|tag attrs kids IH] using node_induction;
    try reflexivity.
  intros H. rewrite flowNode_element. cbn [brVoid hasTag] in H.
  cbn [nodeText]. destruct (strEqb tag (str "br")).
  - destruct kids; [reflexivity | discriminate].
  - now apply visible_textFlow.
Qed.

Lemma visible_processLineBreaks element :
  forallb brVoid element = true ->
  visible (textContent (processLineBreaks element))
  = visible (textContent element).
Proof.
  intros H. rewrite processLineBreaks_textContent.
  apply visible_textFlow; [|exact H].
  apply Forall_forall. intros n _. apply visible_flowNode.
Qed.

(** X2. [htmlToText] neither loses nor adds a character other than white
    space: when the [br] elements of the parsed tree have no children, the
    characters of the result that are not white space are those of the text
    content of the tree, in order. *)
Theorem htmlToText_keeps_visible_characters
        (parseFragment : jsstring -> list node) (c : char) (s : jsstring) :
  forallb brVoid (parseFragment (c :: s)) = true ->
  visible (htmlToText parseFragment (String (c :: s)))
  = visible (textContent (parseFragment (c :: s))).
Proof.
  intros H. rewrite htmlToText_string, visible_cleanupText.
  rewrite visible_removeEmptyParagraphs. now apply visible_processLineBreaks.
Qed.

Lemma htmlToText_keeps_visible_characters_witness :
  visible (htmlToText parseHTML
             (String (str "<p>Plan <b>A</b><br> &nbsp;</p><p> </p><p>B</p>")))
  = str "PlanAB".
Proof.
  refine (eq_trans
            (htmlToText_keeps_visible_characters
               parseHTML LT
               (str "p>Plan <b>A</b><br> &nbsp;</p><p> </p><p>B</p>") _) _);
    reflexivity.
Defined.

(** X3. [removeEmptyParagraphs] is idempotent: a second pass finds nothing
    to remove. *)
Theorem removeEmptyParagraphs_idempotent (element : list node) :
  removeEmptyParagraphs (removeEmptyParagraphs element)
  = removeEmptyParagraphs element.
Proof.
  apply pruned_unchanged; [|apply removeEmptyParagraphs_spec].
  apply Forall_forall. intros n _. apply pruneNode_unchanged.
Qed.

Lemma treeStep_char_root root c :
  N.eqb c NUL = false ->
  treeStep ([], root) (Char c) = ([], appendChar c root).
Proof. intros H. cbn [treeStep]. now rewrite H. Qed.

Lemma build_root_more_text toks l : forall d root,
  Forall (fun c => N.eqb c NUL = false) l ->
  fold_left treeStep (map Char l ++ toks) ([], Text d :: root)
  = fold_left treeStep toks ([], Text (d ++ l) :: root).
Proof.
  induction l as [|c l IH]; intros d root F.
  - simpl. now rewrite app_nil_r.
  - inversion F as [|? ? Hc F']; subst. cbn [map app fold_left].
    rewrite (treeStep_char_root _ _ Hc). cbn [appendChar].
    rewrite (IH _ _ F'). now rewrite <- app_assoc.
Qed.

(** A text without markup is parsed as one text node. *)
Lemma parseHTML_plain c s :
  Forall literal (c :: s) -> parseHTML (c :: s) = [Text (c :: s)].
Proof.
  intros F. unfold parseHTML.
  rewrite normalizeNewlines_plain
    by (apply (Forall_weaken literal); [now intros x (_ & _ & H & _) | exact F]).
  rewrite <- (app_nil_r (c :: s)) at 1.
  rewrite tokenize_text
    by (apply (Forall_weaken literal); [now intros x (H1 & H2 & _) | exact F]).
  assert (Z : Forall (fun x => N.eqb x NUL = false) (c :: s))
    by (apply (Forall_weaken literal); [now intros x (_ & _ & _ & H) | exact F]).
  inversion Z as [|? ? Hc Z']; subst.
  unfold buildTree. cbn [tokenize atEnd map app fold_left].
  rewrite (treeStep_char_root _ _ Hc). cbn [appendChar].
  rewrite (build_root_more_text _ _ _ _ Z'). reflexivity.
Qed.

(** X4. On a text without markup ([&], [<]), carriage return or NUL,
    [htmlToText] is [cleanupText]: the text comes back with its
    non-breaking spaces replaced, its runs of newlines collapsed and its
    ends trimmed, and nothing else changed. *)
Theorem htmlToText_plain_text (s : jsstring) :
  Forall literal s -> htmlToText parseHTML (String s) = cleanupText s.
Proof.
  intros F. destruct s as [|c s]; [reflexivity|].
  rewrite htmlToText_string, (parseHTML_plain _ _ F).
  cbn. now rewrite app_nil_r.
Qed.

Lemma htmlToText_plain_text_witness :
  htmlToText parseHTML (String (str " a > b" ++ [NBSP; LF; LF; LF] ++ str "c "))
  = str "a > b " ++ [LF] ++ str "c".
Proof.
  refine (eq_trans
            (htmlToText_plain_text
               (str " a > b" ++ [NBSP; LF; LF; LF] ++ str "c ") _) _).
  - repeat constructor.
  - reflexivity.
Defined.

(** * The board and its textual representation *)

Lemma sections_incl text sec c : In sec (sections text) -> In c sec -> In c text.
Proof.
  intros Hs Hc. unfold sections in Hs. apply filter_In in Hs as [Hs _].
  apply in_map_iff in Hs as (x & <- & Hx). apply trim_incl in Hc.
  pose proof (splitGo_incl paragraphSeparator (fun d => In d text) text 0 [])
    as F.
  assert (A : Forall (fun d => In d text) text)
    by (apply Forall_forall; auto).
  specialize (F (Forall_nil _) A). rewrite Forall_forall in F.
  specialize (F x Hx). rewrite Forall_forall in F. now apply F.
Qed.

Lemma plainText_chars t c :
  plainText t = true -> In c t -> literal c /\ isNbsp c = false.
Proof.
  unfold plainText. intros H Hc. apply andb_true_iff in H as [M A].
  apply negb_true_iff in M, A.
  assert (Hm : isMeta c = false).
  { destruct (isMeta c) eqn:E; [|reflexivity].
    assert (existsb isMeta t = true) by (apply existsb_exists; eauto).
    congruence. }
  assert (Ha : altered c = false).
  { destruct (altered c) eqn:E; [|reflexivity].
    assert (existsb altered t = true) by (apply existsb_exists; eauto).
    congruence. }
  unfold isMeta, altered in *.
  apply orb_false_iff in Hm as [Hm H3]. apply orb_false_iff in Hm as [H1 H2].
  apply orb_false_iff in Ha as [Ha H5]. apply orb_false_iff in Ha as [H4 H6].
  repeat split; assumption.
Qed.

Lemma fragments_sections t :
  fragments (textToCardHTMLs (String t)) = map cardHTML (sections t).
Proof. destruct t; reflexivity. Qed.

(** Each fragment made from a plain text comes back as the lines of its
    section. *)
Lemma htmlToText_cardHTML t sec :
  plainText t = true -> In sec (sections t) ->
  htmlToText parseHTML (String (cardHTML sec)) = normalizedText sec.
Proof.
  intros P Hs. unfold normalizedText, cardHTML.
  rewrite trimmedLines_cleanedLines.
  pose proof (sections_tight t) as T. rewrite Forall_forall in T.
  destruct (T sec Hs) as [Hn Ht].
  apply htmlToText_card.
  - now apply cleanedLines_nonnil.
  - apply cleanedLines_clean.
  - apply Forall_forall. intros l Hl. apply Forall_forall. intros x Hx.
    apply (plainText_chars t x P).
    apply (sections_incl t sec x Hs). apply (cleanedLines_incl sec l x Hl Hx).
  - apply Forall_forall. intros l Hl. apply Forall_forall. intros x Hx.
    apply (plainText_chars t x P).
    apply (sections_incl t sec x Hs). apply (cleanedLines_incl sec l x Hl Hx).
Qed.

Lemma getTextualRepresentation_texts parseFragment cards :
  getTextualRepresentation parseFragment cards
  = join [LF; LF]
         (map (htmlToText parseFragment)
              (map text (filter isEditableText cards))).
Proof. unfold getTextualRepresentation. now rewrite map_map. Qed.

Lemma board_text t cards :
  plainText t = true ->
  map text (filter isEditableText cards)
  = map String (fragments (textToCardHTMLs (String t))) ->
  getTextualRepresentation parseHTML cards
  = join [LF; LF] (map normalizedText (sections t)).
Proof.
  intros P E. rewrite getTextualRepresentation_texts, E, fragments_sections.
  rewrite !map_map. f_equal. apply map_ext_in. intros sec Hs.
  now apply (htmlToText_cardHTML t).
Qed.

(** X5. When the text cards of the board hold the fragments that
    [textToCardHTMLs] makes of a plain text, [getTextualRepresentation]
    returns the sections of that text, each with its lines trimmed and its
    blank lines left out, separated by one blank line. *)
Theorem getTextualRepresentation_of_fragments
        (t : jsstring) (cards : list card) :
  plainText t = true ->
  map text (filter isEditableText cards)
  = map String (fragments (textToCardHTMLs (String t))) ->
  getTextualRepresentation parseHTML cards
  = join [LF; LF] (map normalizedText (sections t)).
Proof. apply board_text. Qed.

Lemma getTextualRepresentation_of_fragments_witness :
  getTextualRepresentation parseHTML
    [textCard (paragraphOpen ++ str "Idea<br>one" ++ paragraphClose);
     mkCard (str "H5P.Image 1.1") Undefined;
     textCard (paragraphOpen ++ str "two" ++ paragraphClose)]
  = str "Idea" ++ [LF] ++ str "one" ++ [LF; LF] ++ str "two".
Proof.
  refine (eq_trans
            (getTextualRepresentation_of_fragments
               (str " Idea " ++ [LF] ++ str "one" ++ [LF; SPACE; LF; LF]
                    ++ str "two" ++ [LF])
               _ _ _) _); reflexivity.
Defined.

(** Lines joined by newlines are split into the same lines. *)
Lemma lines_app l : forall acc t,
  Forall (fun c => isNl c = false) l ->
  splitGo lineSeparator 0 acc (l ++ t)
  = splitGo lineSeparator 0 (rev l ++ acc) t.
Proof.
  induction l as [|c l IH]; intros acc t F; [reflexivity|].
  inversion F as [|? ? Hc F']; subst. simpl app.
  rewrite lines_cons, Hc, (IH _ _ F'). simpl. now rewrite <- app_assoc.
Qed.

Lemma split_join_lines lines :
  lines <> [] -> Forall cleanLine lines ->
  split lineSeparator (join [LF] lines) = lines.
Proof.
  intros N F. unfold split.
  induction F as [|l ls (_ & _ & Hl) F IH]; [congruence|].
  destruct ls as [|m ls].
  - simpl join. rewrite <- (app_nil_r l) at 1.
    rewrite (lines_app _ _ _ Hl). simpl. now rewrite app_nil_r, rev_involutive.
  - rewrite join_cons, (lines_app _ _ _ Hl). simpl app.
    rewrite lines_cons. change (isNl LF) with true. cbv iota.
    rewrite app_nil_r, rev_involutive. f_equal. apply IH. discriminate.
Qed.

Lemma kept_clean lines : Forall cleanLine lines -> kept lines = lines.
Proof.
  induction 1 as [|l ls (Hn & Ht & _) _ IH]; [reflexivity|].
  unfold kept in *. simpl. rewrite (trim_of_tight _ Ht).
  apply nonEmpty_true in Hn. now rewrite Hn, IH.
Qed.

Lemma cleanedLines_join lines :
  Forall cleanLine lines -> cleanedLines (join [LF] lines) = lines.
Proof.
  intros F. destruct lines as [|l ls]; [reflexivity|].
  unfold cleanedLines. rewrite split_join_lines by (auto; discriminate).
  now apply kept_clean.
Qed.

Lemma noMatch_line l t :
  Forall (fun c => isNl c = false) l ->
  noMatch paragraphSeparator (l ++ t) = noMatch paragraphSeparator t.
Proof.
  induction 1 as [|c l Hc _ IH]; [reflexivity|].
  simpl app. rewrite noMatch_cons, separator_cons, Hc. exact IH.
Qed.

Lemma noMatch_join_lines lines :
  Forall cleanLine lines ->
  noMatch paragraphSeparator (join [LF] lines) = true.
Proof.
  induction 1 as [|l ls (_ & _ & Hl) F IH]; [reflexivity|].
  destruct ls as [|m ls].
  - simpl join. rewrite <- (app_nil_r l). now rewrite noMatch_line.
  - rewrite join_cons, noMatch_line by exact Hl.
    change ([LF] ++ ?x) with (LF :: x).
    rewrite noMatch_cons, separator_cons. change (isNl LF) with true.
    cbv iota.
    destruct (join_lines_shape (m :: ls)) as (Hn & Hs & _);
      [discriminate | exact F |].
    destruct (join [LF] (m :: ls)) as [|x r]; [congruence|].
    simpl in Hs. rewrite spaceNewline_cons, Hs.
    replace (isNl x) with false; [exact IH|].
    destruct (isNl x) eqn:E; [|reflexivity].
    apply isNl_isSpace in E. congruence.
Qed.

Lemma join_paragraphsText sep p ps :
  join sep (p :: ps) = paragraphsText p (map (fun q => (sep, q)) ps).
Proof.
  revert p. induction ps as [|q ps IH]; intros p; [reflexivity|].
  rewrite join_cons. cbn [map paragraphsText]. now rewrite IH.
Qed.

(** The sections of normalized sections joined by blank lines are these
    normalized sections. *)
Lemma sections_join_normalized secs :
  Forall (fun sec => sec <> [] /\ tight sec) secs ->
  sections (join [LF; LF] (map normalizedText secs)) = map normalizedText secs.
Proof.
  intros F.
  assert (P : Forall (fun sec => isParagraph (normalizedText sec) = true
                                 /\ trim (normalizedText sec) = normalizedText sec)
                     secs).
  { apply Forall_forall. intros sec Hs. rewrite Forall_forall in F.
    destruct (F sec Hs) as [Hn Ht]. unfold normalizedText.
    rewrite trimmedLines_cleanedLines.
    pose proof (cleanedLines_clean sec) as C.
    pose proof (cleanedLines_nonnil sec Hn Ht) as N.
    destruct (join_lines_shape _ N C) as [J T].
    rewrite (trim_of_tight _ T). split; [|reflexivity].
    unfold isParagraph. rewrite (noMatch_join_lines _ C), (trim_of_tight _ T).
    now apply nonEmpty_true. }
  destruct secs as [|s0 secs]; [reflexivity|].
  cbn [map]. rewrite join_paragraphsText.
  inversion P as [|? ? [P0 T0] P']; subst.
  rewrite sections_paragraphsText.
  - cbn [map]. rewrite T0. f_equal. rewrite !map_map.
    apply map_ext_in. intros sec Hs. cbn [snd].
    rewrite Forall_forall in P'. now destruct (P' sec Hs).
  - exact P0.
  - apply Forall_forall. intros [sep q] Hq.
    apply in_map_iff in Hq as (q' & [= <- <-] & Hq').
    apply in_map_iff in Hq' as (sec & <- & Hs).
    rewrite Forall_forall in P'. destruct (P' sec Hs). now split.
Qed.

Lemma cardHTML_normalized sec : cardHTML (normalizedText sec) = cardHTML sec.
Proof.
  unfold cardHTML, normalizedText. rewrite trimmedLines_cleanedLines.
  now rewrite (cleanedLines_join _ (cleanedLines_clean sec)).
Qed.

(** X6. The textual representation is stable: when the text cards of the
    board hold the fragments made of a plain text that has at least one
    section, [setFromTextualRepresentation] applied to what
    [getTextualRepresentation] returns hands the same fragments to the
    view. *)
Theorem textual_representation_stable (t : jsstring) (cards : list card) :
  plainText t = true ->
  fragments (textToCardHTMLs (String t)) <> [] ->
  map text (filter isEditableText cards)
  = map String (fragments (textToCardHTMLs (String t))) ->
  setFromTextualRepresentation
    (String (getTextualRepresentation parseHTML cards))
  = textToCardHTMLs (String t).
Proof.
  intros P N E. unfold setFromTextualRepresentation.
  rewrite (board_text t cards P E).
  rewrite fragments_sections in N.
  destruct t as [|c t]; [now destruct N|].
  rewrite textToCardHTMLs_string.
  set (secs := sections (c :: t)) in *.
  assert (T : join [LF; LF] (map normalizedText secs) <> []).
  { pose proof (sections_tight (c :: t)) as F. fold secs in F.
    destruct secs as [|s0 secs']; [now destruct N|].
    inversion F as [|? ? [Hn Ht] _]; subst.
    pose proof (cleanedLines_clean s0) as C.
    pose proof (cleanedLines_nonnil s0 Hn Ht) as L.
    destruct (join_lines_shape _ L C) as [J _].
    cbn [map]. rewrite join_paragraphsText.
    apply paragraphsText_nonnil. unfold normalizedText.
    now rewrite trimmedLines_cleanedLines. }
  destruct (join [LF; LF] (map normalizedText secs)) as [|x r] eqn:J;
    [congruence|].
  rewrite textToCardHTMLs_string, <- J.
  rewrite sections_join_normalized by apply sections_tight.
  rewrite map_map. f_equal. apply map_ext. intros sec.
  apply cardHTML_normalized.
Qed.

Lemma textual_representation_stable_witness :
  setFromTextualRepresentation
    (String
       (getTextualRepresentation parseHTML
          [textCard (paragraphOpen ++ str "Idea<br>one" ++ paragraphClose);
           textCard (paragraphOpen ++ str "two" ++ paragraphClose)]))
  = CardArray [paragraphOpen ++ str "Idea<br>one" ++ paragraphClose;
               paragraphOpen ++ str "two" ++ paragraphClose].
Proof.
  refine (eq_trans
            (textual_representation_stable
               (str " Idea " ++ [LF] ++ str "one" ++ [LF; SPACE; LF; LF]
                    ++ str "two" ++ [LF])
               _ _ _ _) _); try reflexivity.
  discriminate.
Defined.

(** * White space around a text *)

Lemma spaceNewline_length s : forall k,
  matchHere spaceNewline s = Some k -> k <= length s.
Proof.
  induction s as [|c s IH]; intros k H; [discriminate|].
  rewrite spaceNewline_cons in H. simpl length.
  destruct (isSpace c).
  - destruct (matchHere spaceNewline s) as [j|] eqn:Ej.
    + injection H as <-. specialize (IH j eq_refl). lia.
    + destruct (isNl c); [|discriminate]. injection H as <-. lia.
  - destruct (isNl c); [|discriminate]. injection H as <-. lia.
Qed.

Lemma kept_blank_pieces l :
  Forall (Forall (fun c => isSpace c = true)) l -> kept l = [].
Proof.
  induction 1 as [|x l Hx _ IH]; [reflexivity|]. unfold kept in *. simpl.
  rewrite trim_blank; [exact IH|].
  unfold blank. apply forallb_forall. now apply Forall_forall.
Qed.

(** Splitting white space adds nothing to the piece being collected. *)
Lemma kept_split_blank b acc :
  blank b = true -> kept (splitGo paragraphSeparator 0 acc b) = kept [rev acc].
Proof.
  intros B. rewrite splitGo_acc.
  assert (F : Forall (Forall (fun c => isSpace c = true))
                     (splitGo paragraphSeparator 0 [] b)).
  { apply splitGo_incl; [constructor|]. apply Forall_forall.
    unfold blank in B. rewrite forallb_forall in B. exact B. }
  destruct (splitGo paragraphSeparator 0 [] b) as [|x l] eqn:E;
    [now apply splitGo_nonnil in E|].
  inversion F as [|? ? Hx Hl]; subst. cbn [prefixFirst].
  rewrite kept_cons, (kept_blank_pieces _ Hl), app_nil_r.
  unfold kept. simpl. rewrite trim_blank_r; [reflexivity|].
  unfold blank. apply forallb_forall. now apply Forall_forall.
Qed.

Lemma blank_cons c s : blank (c :: s) = isSpace c && blank s.
Proof. reflexivity. Qed.

Lemma sections_blank_end_go w : forall n s acc,
  length s <= n -> blank w = true ->
  kept (splitGo paragraphSeparator 0 acc (s ++ w))
  = kept (splitGo paragraphSeparator 0 acc s).
Proof.
  induction n as [n IH] using lt_wf_ind. intros s acc L B.
  destruct (blank s) eqn:Bs.
  - rewrite kept_split_blank by (now rewrite blank_app, Bs, B).
    now rewrite kept_split_blank.
  - destruct s as [|c s]; [discriminate|]. simpl app. simpl in L.
    assert (M : matchHere paragraphSeparator (c :: s ++ w)
                = matchHere paragraphSeparator (c :: s)).
    { rewrite !separator_cons. destruct (isNl c) eqn:E; [|reflexivity].
      rewrite blank_cons, (isNl_isSpace _ E) in Bs. simpl in Bs.
      destruct (blank_or_not s) as [X|(a & x & b & -> & Ha & Hx)];
        [congruence|].
      rewrite <- app_assoc. simpl app.
      now rewrite (spaceNewline_local a x (b ++ w) b Ha Hx). }
    destruct (matchHere paragraphSeparator (c :: s)) as [[|k]|] eqn:E.
    + rewrite !splitGo_pass; try (intros j; rewrite ?M, ?E; discriminate).
      apply (IH (length s)); [lia | lia | exact B].
    + rewrite (splitGo_match _ _ (c :: s ++ w) k M).
      rewrite (splitGo_match _ _ (c :: s) k E). simpl skipn.
      rewrite separator_cons in E. destruct (isNl c); [|discriminate].
      destruct (matchHere spaceNewline s) as [j|] eqn:Ej; [|discriminate].
      injection E as <-. pose proof (spaceNewline_length _ _ Ej) as Lj.
      rewrite skipn_app. replace (j - length s) with 0 by lia. simpl skipn.
      rewrite (kept_cons _ (splitGo _ _ _ (skipn j s ++ w))).
      rewrite (kept_cons _ (splitGo _ _ _ (skipn j s))). f_equal.
      apply (IH (length (skipn j s))); [|lia|exact B].
      rewrite length_skipn. lia.
    + rewrite !splitGo_pass; try (intros j; rewrite ?M, ?E; discriminate).
      apply (IH (length s)); [lia | lia | exact B].
Qed.

Lemma sections_blank_end s w : blank w = true -> sections (s ++ w) = sections s.
Proof. intros B. now apply (sections_blank_end_go w (length s)). Qed.

(** X7. White space and blank lines before and after a text do not
    change the fragments [textToCardHTMLs] makes of it. *)
Theorem textToCardHTMLs_surrounding_space (a t b : jsstring) :
  blank a = true -> blank b = true ->
  fragments (textToCardHTMLs (String (a ++ t ++ b)))
  = fragments (textToCardHTMLs (String t)).
Proof.
  intros Ha Hb. rewrite !fragments_sections.
  now rewrite sections_blank_app, sections_blank_end.
Qed.

Lemma textToCardHTMLs_surrounding_space_witness :
  fragments
    (textToCardHTMLs
       (String ([LF; LF; SPACE] ++ (str "A" ++ [LF; LF] ++ str "B")
                ++ [LF; 9%N; LF])))
  = fragments (textToCardHTMLs (String (str "A" ++ [LF; LF] ++ str "B"))).
Proof.
  apply (textToCardHTMLs_surrounding_space
           [LF; LF; SPACE] (str "A" ++ [LF; LF] ++ str "B") [LF; 9%N; LF]);
    reflexivity.
Defined.

(** * The other functions of the widget *)

Lemma startsWith_spec prefix : forall s,
  startsWith prefix s = true <-> exists rest, s = prefix ++ rest.
Proof.
  induction prefix as [|p prefix IH]; intros s; simpl.
  - split; [intros _; now exists s | reflexivity].
  - destruct s as [|c s]; split.
    + discriminate.
    + intros [rest E]. discriminate.
    + intros H. apply andb_true_iff in H as [H1 H2].
      apply N.eqb_eq in H1. apply IH in H2 as [rest ->]. subst.
      now exists rest.
    + intros [rest [= -> ->]]. rewrite N.eqb_refl. apply IH. now exists rest.
Qed.

(** X8. A card of another library does not count: with or without it the
    textual representation is the same. *)
Theorem getTextualRepresentation_skips_other_cards
        (parseFragment : jsstring -> list node)
        (before after : list card) (c : card) :
  isEditableText c = false ->
  getTextualRepresentation parseFragment (before ++ c :: after)
  = getTextualRepresentation parseFragment (before ++ after).
Proof.
  intros H. unfold getTextualRepresentation.
  rewrite !filter_app. simpl. now rewrite H.
Qed.

Lemma getTextualRepresentation_skips_other_cards_witness :
  getTextualRepresentation parseHTML
    ([textCard (str "<p>A</p>")]
       ++ mkCard (str "H5P.Image 1.1") (String (str "<p>X</p>"))
       :: [textCard (str "<p>B</p>")])
  = getTextualRepresentation parseHTML
      ([textCard (str "<p>A</p>")] ++ [textCard (str "<p>B</p>")]).
Proof.
  apply (getTextualRepresentation_skips_other_cards
           parseHTML [textCard (str "<p>A</p>")] [textCard (str "<p>B</p>")]
           (mkCard (str "H5P.Image 1.1") (String (str "<p>X</p>")))).
  reflexivity.
Defined.

(** X9. The view library chosen in the constructor is the first key that
    starts with [H5P.IdeaBoard] and a space; there is none exactly when no
    key starts so. *)
Theorem viewUberName_first_match (keys : list jsstring) :
  match viewUberName keys with
  | Some k =>
      exists before after rest,
        keys = before ++ k :: after
        /\ k = str "H5P.IdeaBoard " ++ rest
        /\ Forall (fun x => startsWith (str "H5P.IdeaBoard ") x = false) before
  | None => Forall (fun x => startsWith (str "H5P.IdeaBoard ") x = false) keys
  end.
Proof.
  unfold viewUberName. induction keys as [|x keys IH]; [constructor|].
  cbn [filter]. destruct (startsWith (str "H5P.IdeaBoard ") x) eqn:E.
  - cbn [hd_error]. apply startsWith_spec in E as [rest ->].
    exists [], keys, rest. repeat split. constructor.
  - destruct (hd_error (filter (startsWith (str "H5P.IdeaBoard ")) keys))
      as [k|].
    + destruct IH as (before & after & rest & -> & -> & F).
      exists (x :: before), after, rest. repeat split. now constructor.
    + now constructor.
Qed.

Lemma pickGroup_found (child : Type) index (c : child) l :
  fold_left (pickGroup child index) l (Group child c) = Group child c.
Proof. induction l as [|x l IH]; [reflexivity | exact IH]. Qed.

Lemma getCardsListGroupInstance_from (child : Type) index children : forall start,
  fold_left (pickGroup child index)
            (combine children (seq start (length children))) (NoGroup child)
  = match (if Nat.leb start index then nth_error children (index - start)
           else None) with
    | Some c => Group child c
    | None => NoGroup child
    end.
Proof.
  induction children as [|c children IH]; intros start.
  - simpl. destruct (Nat.leb start index); [|reflexivity].
    now destruct (index - start).
  - cbn [length seq combine fold_left pickGroup snd fst].
    destruct (Nat.eqb start index) eqn:E.
    + apply Nat.eqb_eq in E. subst. rewrite pickGroup_found.
      rewrite Nat.leb_refl, Nat.sub_diag. reflexivity.
    + apply Nat.eqb_neq in E. rewrite IH.
      destruct (Nat.leb (S start) index) eqn:L1.
      * apply Nat.leb_le in L1.
        replace (Nat.leb start index) with true
          by (symmetry; apply Nat.leb_le; lia).
        replace (index - start) with (S (index - S start)) by lia.
        reflexivity.
      * apply Nat.leb_gt in L1.
        replace (Nat.leb start index) with false
          by (symmetry; apply Nat.leb_gt; lia).
        reflexivity.
Qed.

(** X10. [getCardsListGroupInstance] returns the child of the cards list
    at the index asked for, and [false] when the list has no child there or
    when there is no cards list. *)
Theorem getCardsListGroupInstance_nth
        (child : Type) (cardsListInstance : option (list child)) (index : nat) :
  getCardsListGroupInstance child cardsListInstance index
  = match cardsListInstance with
    | Some children =>
        match nth_error children index with
        | Some c => Group child c
        | None => NoGroup child
        end
    | None => NoGroup child
    end.
Proof.
  destruct cardsListInstance as [children|]; [|reflexivity].
  unfold getCardsListGroupInstance.
  rewrite getCardsListGroupInstance_from. simpl. now rewrite Nat.sub_0_r.
Qed.

(** X11. Each fragment made of a plain text is read by the parser as one
    paragraph element with the centering style, whose children are the
    kept lines of the section as text nodes with one [br] element between
    two lines. *)
Theorem fragments_parse_as_one_paragraph (t : jsstring) :
  plainText t = true ->
  Forall2 (fun f sec => parseHTML f = [cardParagraph (lineNodes (cleanedLines sec))])
          (fragments (textToCardHTMLs (String t))) (sections t).
Proof.
  intros P. rewrite fragments_sections.
  assert (F : Forall (fun sec => In sec (sections t)) (sections t))
    by (apply Forall_forall; auto).
  induction F as [|sec secs Hs _ IH]; [constructor|].
  cbn [map]. constructor; [|exact IH].
  unfold cardHTML. apply parseHTML_card.
  apply Forall_forall. intros l Hl.
  pose proof (cleanedLines_clean sec) as C. rewrite Forall_forall in C.
  destruct (C l Hl) as (Hn & _). split; [exact Hn|].
  apply Forall_forall. intros x Hx. apply (plainText_chars t x P).
  apply (sections_incl t sec x Hs). apply (cleanedLines_incl sec l x Hl Hx).
Qed.

Lemma fragments_parse_as_one_paragraph_witness :
  Forall2 (fun f sec => parseHTML f = [cardParagraph (lineNodes (cleanedLines sec))])
          (fragments (textToCardHTMLs (String (str "A" ++ [LF] ++ str "B"))))
          (sections (str "A" ++ [LF] ++ str "B")).
Proof.
  apply (fragments_parse_as_one_paragraph (str "A" ++ [LF] ++ str "B")).
  reflexivity.
Defined.

Section TelemetryProperties.

Variable jsval : Type.
Variable undefinedValue : jsval.
Variable nullish : jsval -> bool.
Variable toString : jsval -> jsstring.
Variable ofString : jsstring -> jsval.

Hypothesis nullish_undefined : nullish undefinedValue = true.
Hypothesis nullish_string : forall s, nullish (ofString s) = false.
Hypothesis toString_string : forall s, toString (ofString s) = s.

Lemma orDefault_again v d e :
  orDefault jsval nullish toString ofString
            (orDefault jsval nullish toString ofString v d) e
  = orDefault jsval nullish toString ofString v d.
Proof.
  unfold orDefault. now rewrite nullish_string, toString_string.
Qed.

(** X12. [updateValue] fills in a card without telemetry with the strings
    [10], [10], [0] and [0], keeps the rest of each card and the number and
    order of the cards, and is idempotent: applied to cards it has
    updated, it changes nothing. *)
Theorem updateCards_idempotent
        (rest : Type) (cards : option (list (boardCard jsval rest))) (r : rest) :
  let update := updateCards jsval undefinedValue nullish toString ofString in
  update (Some (update cards)) = update cards
  /\ map (cardRest jsval rest) (update cards)
     = map (cardRest jsval rest) (match cards with Some l => l | None => [] end)
  /\ update (Some [mkBoardCard jsval rest None r])
     = [mkBoardCard jsval rest
          (Some (mkTelemetry jsval (ofString (str "10")) (ofString (str "10"))
                             (ofString (str "0")) (ofString (str "0"))))
          r].
Proof.
  cbv zeta. unfold updateCards. split; [|split].
  - rewrite map_map. apply map_ext. intros [t x].
    unfold updateCard. cbn. now rewrite !orDefault_again.
  - rewrite map_map. reflexivity.
  - cbn. unfold updateCard, orDefault. cbn. now rewrite nullish_undefined.
Qed.

End TelemetryProperties.

Lemma updateCards_idempotent_witness :
  updateCards (option jsstring) None
              (fun v => match v with None => true | Some _ => false end)
              (fun v => match v with None => [] | Some s => s end) Some
              (Some (updateCards (option jsstring) None
                       (fun v => match v with None => true | Some _ => false end)
                       (fun v => match v with None => [] | Some s => s end) Some
                       (Some [mkBoardCard (option jsstring) nat None 7])))
  = [mkBoardCard (option jsstring) nat
       (Some (mkTelemetry (option jsstring) (Some (str "10")) (Some (str "10"))
                          (Some (str "0")) (Some (str "0"))))
       7].
Proof.
  refine (eq_trans
            (proj1 (updateCards_idempotent
                      (option jsstring) None
                      (fun v => match v with None => true | Some _ => false end)
                      (fun v => match v with None => [] | Some s => s end) Some
                      _ _ _ nat (Some [mkBoardCard (option jsstring) nat None 7]) 7))
            _); reflexivity.
Defined.
